(** * langchainjs: the OpenAI batch generation engine and the document
      stuffing chain

    A shallow embedding of
    - [StuffDocumentsChain] (constructor, [_call], [serialize],
      [deserialize]) and
    - [OpenAI] (constructor, [invocationParams], [_generate],
      [completionWithRetry]),
    together with the two helpers of "../util" they import.

    Asynchronous methods are functions in a state-and-exception monad: a
    rejected promise is a left injection, the state is whatever the
    collaborators (remote transport, inner chain, file store) can observe
    or change, extended with a log of the calls they received. *)

From Stdlib Require Import ZArith QArith Ascii Permutation.
From stdpp Require Import base option list strings gmap.

(** ** Exceptions and the promise monad *)

(** What a JavaScript [throw] (or a rejected promise) carries. *)
Inductive exn : Type :=
| Error (message : string)      (* [throw new Error(message)] *)
| TypeError (message : string)  (* raised by the runtime itself *)
| InvalidArgument               (* condition of the chunker *)
| ConfigResolution.             (* condition of the configuration resolver *)

(** A computation over a state [S] that returns an [A] or throws. The
    state survives a throw: what a collaborator did before the failure
    stays done. *)
Definition M (S A : Type) : Type := S → (exn + A) * S.

#[global] Instance M_ret {S} : MRet (M S) := λ A (a : A) s, (inr a, s).

#[global] Instance M_bind {S} : MBind (M S) := λ A B (k : A → M S B) (m : M S A) s,
  match m s with
  | (inr a, s') => k a s'
  | (inl e, s') => (inl e, s')
  end.

Definition throw {S A} (e : exn) : M S A := λ s, (inl e, s).

(** A synchronous call that may throw, run inside an async function. *)
Definition lift {S A} (r : exn + A) : M S A := λ s, (r, s).

(** ** JavaScript values carried by [Record<string, any>] objects *)

Definition newline : string := String "010"%char "".

(** Modelled from the spec: [Document] is imported from "../document",
    which is not among the sources. Section 3 of the specification: "a text
    payload (the pipeline stage reads only its text content, ignoring any
    other attributes it may carry)". The chain reads [pageContent]. *)
Record Document : Type := mkDocument {
  pageContent : string;
  metadata : gmap string string
}.

Inductive value : Type :=
| VUndefined
| VNumber (x : Q)
| VString (s : string)
| VStrings (l : list string)
| VNumbers (m : gmap string Q)
| VDocuments (docs : list Document).

(** [Array.prototype.join] on an array of strings. *)
Definition join (sep : string) (l : list string) : string := String.concat sep l.

(** ** "../util" *)

Module Util.

Section Chunker.
Context {A : Type}.

(** Modelled from the spec: [chunkArray] is imported from "../util", which
    is not among the sources. Section 4.1 of the specification: "given an
    ordered sequence and a positive integer chunk size, returns an ordered
    sequence of ordered sub-sequences such that concatenating them in order
    reproduces the input exactly; every sub-sequence has length equal to
    chunk size except possibly the last [...]. Fails with an InvalidArgument
    condition if chunk size <= 0. Pure, no side effects".

    The sub-sequences are cut from the front, [size] elements at a time.
    [fuel] bounds their number; [length arr] always suffices. *)
Fixpoint chunks_upto (fuel size : nat) (arr : list A) : list (list A) :=
  match fuel, arr with
  | 0, _ | _, [] => []
  | S fuel', _ :: _ => take size arr :: chunks_upto fuel' size (drop size arr)
  end.

(** Modelled from the spec: the sub-sequences for a positive [size]. *)
Definition chunks (size : nat) (arr : list A) : list (list A) :=
  chunks_upto (length arr) size arr.

(** Modelled from the spec: the chunker, with its failure on a chunk size
    that is not positive. *)
Definition chunkArray (arr : list A) (chunkSize : Z) : exn + list (list A) :=
  if decide (chunkSize ≤ 0)%Z then inl InvalidArgument
  else inr (chunks (Z.to_nat chunkSize) arr).

End Chunker.

End Util.

(** ** The OpenAI engine *)

Module OpenAI.
Import Util.

(** The wire types of the "openai" package that [_generate] reads. *)
Module Api.

Record Choice : Type := mkChoice {
  text : option string;
  index : option Z;
  logprobs : option (list Q);
  finish_reason : option string
}.

Record Usage : Type := mkUsage {
  prompt_tokens : option Z;
  completion_tokens : option Z;
  total_tokens : option Z
}.

(** The [data] of a [createCompletion] response. *)
Record CreateCompletionResponse : Type := mkResponse {
  choices : list Choice;
  usage : option Usage
}.

End Api.

(** [CreateCompletionRequest & Kwargs]: an object, key by key. *)
Abbreviation CreateCompletionRequest := (gmap string value).

Record TokenUsage : Type := mkTokenUsage {
  completionTokens : option Z;
  promptTokens : option Z;
  totalTokens : option Z
}.

Record GenerationInfo : Type := mkGenerationInfo {
  finishReason : option string;
  logprobs : option (list Q)
}.

Record Generation : Type := mkGeneration {
  text : string;
  generationInfo : GenerationInfo
}.

Record LLMOutput : Type := mkLLMOutput { tokenUsage : TokenUsage }.

Record LLMResult : Type := mkLLMResult {
  generations : list (list Generation);
  llmOutput : LLMOutput
}.

(** The fields of an [OpenAI] instance other than its client. *)
Record OpenAI : Type := mkOpenAI {
  temperature : Q;
  maxTokens : Z;
  topP : Q;
  frequencyPenalty : Q;
  presencePenalty : Q;
  n : Z;
  bestOf : Z;
  logitBias : option (gmap string Q);
  modelName : string;
  modelKwargs : gmap string value;
  batchSize : Z;
  maxRetries : Z;
  stop : option (list string)
}.

(** [Partial<OpenAIInput>], the argument of the constructor. *)
Record OpenAIFields : Type := mkOpenAIFields {
  f_temperature : option Q;
  f_maxTokens : option Z;
  f_topP : option Q;
  f_frequencyPenalty : option Q;
  f_presencePenalty : option Q;
  f_n : option Z;
  f_bestOf : option Z;
  f_logitBias : option (gmap string Q);
  f_modelName : option string;
  f_modelKwargs : option (gmap string value);
  f_batchSize : option Z;
  f_maxRetries : option Z;
  f_stop : option (list string)
}.

Definition no_fields : OpenAIFields :=
  mkOpenAIFields None None None None None None None None None None None None None.

(** [new OpenAI(fields)]: each field, or the default of the class. *)
Definition new (fields : OpenAIFields) : OpenAI := {|
  modelName := default "text-davinci-003" (f_modelName fields);
  modelKwargs := default ∅ (f_modelKwargs fields);
  batchSize := default 20%Z (f_batchSize fields);
  maxRetries := default 6%Z (f_maxRetries fields);
  temperature := default (7 # 10)%Q (f_temperature fields);
  maxTokens := default 256%Z (f_maxTokens fields);
  topP := default 1%Q (f_topP fields);
  frequencyPenalty := default 0%Q (f_frequencyPenalty fields);
  presencePenalty := default 0%Q (f_presencePenalty fields);
  n := default 1%Z (f_n fields);
  bestOf := default 1%Z (f_bestOf fields);
  logitBias := f_logitBias fields;
  stop := f_stop fields
|}.

Definition optional {A} (inj : A → value) (o : option A) : value :=
  match o with Some a => inj a | None => VUndefined end.

(** The literal of [invocationParams], then the spread of [modelKwargs]
    over it. *)
Definition invocationParams (self : OpenAI) : CreateCompletionRequest :=
  modelKwargs self ∪
  list_to_map [
    ("model", VString (modelName self));
    ("temperature", VNumber (temperature self));
    ("max_tokens", VNumber (inject_Z (maxTokens self)));
    ("top_p", VNumber (topP self));
    ("frequency_penalty", VNumber (frequencyPenalty self));
    ("presence_penalty", VNumber (presencePenalty self));
    ("n", VNumber (inject_Z (n self)));
    ("best_of", VNumber (inject_Z (bestOf self)));
    ("logit_bias", optional VNumbers (logitBias self));
    ("stop", optional VStrings (stop self))
  ].

(** [{ model_name: this.modelName, ...this.invocationParams() }]: the
    spread comes last, so it wins on a key both hold. *)
Definition identifyingParams (self : OpenAI) : gmap string value :=
  invocationParams self ∪ {[ "model_name" := VString (modelName self) ]}.

Definition _llmType (self : OpenAI) : string := "openai".

(** The keys the literal of [invocationParams] writes, with the field of
    the instance each one carries. *)
Definition own_params (self : OpenAI) : list (string * value) := [
  ("model", VString (modelName self));
  ("temperature", VNumber (temperature self));
  ("max_tokens", VNumber (inject_Z (maxTokens self)));
  ("top_p", VNumber (topP self));
  ("frequency_penalty", VNumber (frequencyPenalty self));
  ("presence_penalty", VNumber (presencePenalty self));
  ("n", VNumber (inject_Z (n self)));
  ("best_of", VNumber (inject_Z (bestOf self)));
  ("logit_bias", optional VNumbers (logitBias self));
  ("stop", optional VStrings (stop self))
].

(** [params.stop = stop ?? params.stop] *)
Definition with_stop (stop : option (list string)) (params : CreateCompletionRequest)
    : CreateCompletionRequest :=
  <["stop" := match stop with
              | Some s => VStrings s
              | None => default VUndefined (params !! "stop")
              end]> params.

(** [{ ...params, prompt: subPrompts[i] }] *)
Definition with_prompt (prompt : list string) (params : CreateCompletionRequest)
    : CreateCompletionRequest :=
  <["prompt" := VStrings prompt]> params.

(** [if (tokens) { acc = (acc ?? 0) + tokens }]: an absent counter and a
    counter equal to 0 are both falsy. *)
Definition add_tokens (acc tokens : option Z) : option Z :=
  match tokens with
  | Some t => if decide (t = 0)%Z then acc else Some (default 0 acc + t)%Z
  | None => acc
  end.

(** [data.usage ?? {}] *)
Definition usage_or_empty (u : option Api.Usage) : Api.Usage :=
  default (Api.mkUsage None None None) u.

(** The three guarded additions of one iteration. *)
Definition add_usage (acc : TokenUsage) (u : option Api.Usage) : TokenUsage := {|
  completionTokens := add_tokens (completionTokens acc) (Api.completion_tokens (usage_or_empty u));
  promptTokens := add_tokens (promptTokens acc) (Api.prompt_tokens (usage_or_empty u));
  totalTokens := add_tokens (totalTokens acc) (Api.total_tokens (usage_or_empty u))
|}.

Definition no_usage : TokenUsage := mkTokenUsage None None None.

(** The callback of the final [map]. *)
Definition to_generation (choice : Api.Choice) : Generation := {|
  text := default "" (Api.text choice);
  generationInfo := {|
    finishReason := Api.finish_reason choice;
    logprobs := Api.logprobs choice
  |}
|}.

Section Engine.
(** The remote transport: [this.client.createCompletion], over whatever
    state [R] the provider keeps. *)
Context {R : Type}.
Variable createCompletion :
  CreateCompletionRequest → R → (exn + Api.CreateCompletionResponse) * R.

(** What a call can observe and change: the provider, and the log of the
    requests the transport received. *)
Record World : Type := mkWorld {
  invocations : list CreateCompletionRequest;
  remote : R
}.

Definition client_createCompletion (request : CreateCompletionRequest)
    : M World Api.CreateCompletionResponse := λ w,
  let '(r, s) := createCompletion request (remote w) in
  (r, {| invocations := invocations w ++ [request]; remote := s |}).

(** [backOff] of the "exponential-backoff" package, delays left out: run
    the thunk, and run it again after a failure while attempts remain;
    the last failure is the one rethrown. *)
Fixpoint retry {A} (thunk : M World A) (retries : nat) : M World A := λ w,
  match thunk w with
  | (inr a, w') => (inr a, w')
  | (inl e, w') =>
      match retries with
      | 0 => (inl e, w')
      | S retries' => retry thunk retries' w'
      end
  end.

(** The package raises [numOfAttempts] to 1 when it is smaller. *)
Definition backOff {A} (thunk : M World A) (numOfAttempts : Z) : M World A :=
  retry thunk (Z.to_nat (Z.max 1 numOfAttempts) - 1).

Definition completionWithRetry (self : OpenAI) (request : CreateCompletionRequest)
    : M World Api.CreateCompletionResponse :=
  let makeCompletionRequest := client_createCompletion request in
  backOff makeCompletionRequest (maxRetries self).

(** The [for] loop of [_generate], from batch [i] on, with the two
    accumulators it updates. *)
Fixpoint generate_loop (self : OpenAI) (params : CreateCompletionRequest)
    (subPrompts : list (list string))
    (choices : list Api.Choice) (tokenUsage : TokenUsage)
    : M World (list Api.Choice * TokenUsage) :=
  match subPrompts with
  | [] => mret (choices, tokenUsage)
  | prompt :: rest =>
      data ← completionWithRetry self (with_prompt prompt params);
      generate_loop self params rest
        (choices ++ Api.choices data) (add_usage tokenUsage (Api.usage data))
  end.

Definition _generate (self : OpenAI) (prompts : list string) (stop' : option (list string))
    : M World LLMResult :=
  subPrompts ← lift (chunkArray prompts (batchSize self));
  if bool_decide (is_Some (stop self) ∧ is_Some stop') then
    throw (Error "Stop found in input and default params")
  else
    let params := with_stop stop' (invocationParams self) in
    '(choices, tokenUsage) ← generate_loop self params subPrompts [] no_usage;
    promptChoices ← lift (chunkArray choices (n self));
    mret {| generations := map (map to_generation) promptChoices;
            llmOutput := {| tokenUsage := tokenUsage |} |}.

(** *** Vocabulary for the runs of [_generate] *)

(** [served self params batches w datas w']: from [w], the transport
    answers the batches one after the other, each within its retries, with
    the responses [datas], and leaves [w']. *)
Inductive served (self : OpenAI) (params : CreateCompletionRequest)
    : list (list string) → World → list Api.CreateCompletionResponse → World → Prop :=
| served_nil w : served self params [] w [] w
| served_cons prompt rest data datas w w1 w2 :
    completionWithRetry self (with_prompt prompt params) w = (inr data, w1) →
    served self params rest w1 datas w2 →
    served self params (prompt :: rest) w (data :: datas) w2.

(** [_generate] throws for its two arguments of type [string[] | undefined]
    when both are defined. *)
Definition stop_conflict (self : OpenAI) (stop' : option (list string)) : Prop :=
  is_Some (stop self) ∧ is_Some stop'.

(** What [if (tokens)] skips: an absent counter, and a counter of 0. *)
Definition falsy (tokens : option Z) : Prop := tokens = None ∨ tokens = Some 0%Z.

#[global] Instance falsy_dec tokens : Decision (falsy tokens).
Proof. unfold falsy. apply _. Defined.

(** The accumulator after the usages of a run, from the empty one. *)
Definition accumulate (usages : list (option Api.Usage)) : TokenUsage :=
  foldl add_usage no_usage usages.

(** A counter as a batch reports it, and as the result carries it. *)
Definition counters : list ((Api.Usage → option Z) * (TokenUsage → option Z)) :=
  [ (Api.completion_tokens, completionTokens);
    (Api.prompt_tokens, promptTokens);
    (Api.total_tokens, totalTokens) ].

(** The sum of one counter over the batches, an absent one counting 0. *)
Definition sum_tokens (counts : list (option Z)) : Z :=
  foldr (λ tokens acc, default 0 tokens + acc)%Z 0%Z counts.

Definition reported_sum (reported : Api.Usage → option Z) (usages : list (option Api.Usage)) : Z :=
  sum_tokens (map (λ u, reported (usage_or_empty u)) usages).

End Engine.

Arguments World : clear implicits.

Section Attempts.
Context {R : Type}.
Variable createCompletion :
  CreateCompletionRequest → R → (exn + Api.CreateCompletionResponse) * R.

(** [rejected request k s s']: from the state [s] the provider rejects [k]
    sends of the request in a row, and is then in the state [s']. *)
Inductive rejected (request : CreateCompletionRequest) : nat → R → R → Prop :=
| rejected_O s : rejected request 0 s s
| rejected_S k s e s1 s2 :
    createCompletion request s = (inl e, s1) →
    rejected request k s1 s2 →
    rejected request (S k) s s2.

End Attempts.

Section Replicas.
(** [answers prompt choice]: the choice is a completion of the prompt. The
    engine never inspects it; it is what "aligned with the prompt" means. *)
Variable answers : string → Api.Choice → Prop.

(** The choices of a response are [n] completions of the first prompt,
    then [n] of the second, and so on. *)
Definition in_prompt_order (n : nat) (prompts : list string) (choices : list Api.Choice) : Prop :=
  ∃ groups : list (list Api.Choice),
    Forall2 (λ prompt group, length group = n ∧ Forall (answers prompt) group) prompts groups ∧
    choices = concat groups.

(** The generations of a result are [n] per prompt, each made from a
    completion of that prompt. *)
Definition aligned (n : nat) (prompts : list string) (generations : list (list Generation)) : Prop :=
  Forall2 (λ prompt group,
             length group = n ∧
             Forall (λ g, ∃ choice, answers prompt choice ∧ g = to_generation choice) group)
          prompts generations.

End Replicas.

End OpenAI.

(** ** The document stuffing chain *)

Module StuffDocumentsChain.

(** Modelled from the spec: [ChainValues] is imported from "./index",
    which is not among the sources. Section 3 of the specification: "a
    mapping from string keys to arbitrary values". *)
Abbreviation ChainValues := (gmap string value).

(** [LLMChain] and [SerializedLLMChain] are imported from "./index", which
    is not among the sources: they are parameters. What the chain uses of
    them: the instance methods [call] and [serialize] and the static
    [deserialize], over the state [R] the inner chain works on. *)
Class LLMChainLike (LLMChain SerializedLLMChain R : Type) : Type := {
  LLMChain_call : LLMChain → ChainValues → R → (exn + ChainValues) * R;
  LLMChain_serialize : LLMChain → SerializedLLMChain;
  LLMChain_deserialize : SerializedLLMChain → R → (exn + LLMChain) * R
}.

Section Chain.
Context `{LLMChainLike LLMChain SerializedLLMChain R}.

Record StuffDocumentsChain : Type := mkStuffDocumentsChain {
  llmChain : LLMChain;
  inputKey : string;
  outputKey : string;
  documentVariableName : string
}.

Record SerializedStuffDocumentsChain : Type := mkSerialized {
  _type : string;
  llm_chain : option SerializedLLMChain;
  llm_chain_path : option string
}.

(** The argument of the constructor. *)
Record Fields : Type := mkFields {
  f_llmChain : LLMChain;
  f_inputKey : option string;
  f_outputKey : option string;
  f_documentVariableName : option string
}.

Definition new (fields : Fields) : StuffDocumentsChain := {|
  llmChain := f_llmChain fields;
  documentVariableName := default "context" (f_documentVariableName fields);
  inputKey := default "input_documents" (f_inputKey fields);
  outputKey := default "output_text" (f_outputKey fields)
|}.

(** The external resources by location, each already parsed; the log of
    the maps the inner chain was called with; the inner chain's state. *)
Record World : Type := mkWorld {
  files : gmap string SerializedLLMChain;
  inner_calls : list ChainValues;
  inner : R
}.

(** [this.llmChain.call(values)], logged. *)
Definition llmChain_call (chain : LLMChain) (values : ChainValues) : M World ChainValues :=
  λ w,
  let '(r, s) := LLMChain_call chain values (inner w) in
  (r, {| files := files w; inner_calls := inner_calls w ++ [values]; inner := s |}).

(** [LLMChain.deserialize(data)] *)
Definition llmChain_deserialize (data : SerializedLLMChain) : M World LLMChain := λ w,
  let '(r, s) := LLMChain_deserialize data (inner w) in
  (r, {| files := files w; inner_calls := inner_calls w; inner := s |}).

(** The names every object inherits from [Object.prototype]. A
    [ChainValues] is a plain object: the [in] operator and a property read
    find these names in it whatever its own keys are. *)
Definition Object_prototype : list string := [
  "constructor"; "hasOwnProperty"; "isPrototypeOf"; "propertyIsEnumerable";
  "toLocaleString"; "toString"; "valueOf"; "__proto__";
  "__defineGetter__"; "__defineSetter__"; "__lookupGetter__"; "__lookupSetter__"
].

(** What a property read [values[key]] finds: the value of an own key, a
    member of [Object.prototype] (a method, or for "__proto__" the
    prototype itself), or nothing. *)
Inductive property : Type :=
| Own (v : value)
| Inherited
| Missing.

Definition get (key : string) (values : ChainValues) : property :=
  match values !! key with
  | Some v => Own v
  | None => if decide (key ∈ Object_prototype) then Inherited else Missing
  end.

(** [key in values] *)
Definition has (key : string) (values : ChainValues) : bool :=
  match get key values with
  | Missing => false
  | _ => true
  end.

(** [(docs as Document[]).map(({ pageContent }) => pageContent)]. The
    assertion is unchecked. An array of documents gives their texts; an
    array of strings gives [undefined] for each, a string having no
    [pageContent]; [undefined] has no property to read; anything else has
    no [map] to call. *)
Definition page_contents (docs : property) : exn + list (option string) :=
  match docs with
  | Own (VDocuments ds) => inr (map (λ d, Some (pageContent d)) ds)
  | Own (VStrings l) => inr (map (λ _, None) l)
  | Own VUndefined | Missing =>
      inl (TypeError "Cannot read properties of undefined (reading 'map')")
  | Own (VNumber _) | Own (VString _) | Own (VNumbers _) | Inherited =>
      inl (TypeError "docs.map is not a function")
  end.

(** [texts.join(sep)]: an [undefined] element is joined as the empty
    string. *)
Definition join_texts (sep : string) (texts : list (option string)) : string :=
  join sep (map (default "") texts).

Definition _call (self : StuffDocumentsChain) (values : ChainValues) : M World ChainValues :=
  if has (inputKey self) values then
    let docs := get (inputKey self) values in
    let rest := delete (inputKey self) values in
    texts ← lift (page_contents docs);
    let text := join_texts (newline +:+ newline) texts in
    result ← llmChain_call (llmChain self) (<[documentVariableName self := VString text]> rest);
    mret result
  else
    throw (Error ("Document key " +:+ inputKey self +:+ " not found.")).

Definition _chainType (self : StuffDocumentsChain) : string := "stuff_documents_chain".

(** The inline value and the "path" variant a serialized chain holds
    under a key. *)
Definition inline_at (key : string) (data : SerializedStuffDocumentsChain)
    : option SerializedLLMChain :=
  if decide (key = "llm_chain") then llm_chain data else None.

Definition path_at (key : string) (data : SerializedStuffDocumentsChain) : option string :=
  if decide (key = "llm_chain") then llm_chain_path data else None.

(** Modelled from the spec: [resolveConfigFromFile] of "../util" is not
    among the sources. Section 6 of the specification: "given a key name
    and a SerializedConfig possibly containing either an inline value at
    that key or a "path" variant referencing an external resource, returns
    the resolved inline configuration value (reading and parsing the
    external resource when a path was given). Failure to read/parse
    surfaces as a ConfigResolution error"; section 4.4: the two forms "are
    mutually exclusive inputs to a single deserialize call - supplying
    neither, or supplying an unresolvable reference, fails with a
    ConfigResolution condition"; section 7 counts an ambiguous reference
    among the ConfigResolution failures. *)
Definition resolveConfigFromFile (key : string) (data : SerializedStuffDocumentsChain)
    : M World SerializedLLMChain := λ w,
  match inline_at key data, path_at key data with
  | Some config, None => (inr config, w)
  | None, Some path =>
      match files w !! path with
      | Some config => (inr config, w)
      | None => (inl ConfigResolution, w)
      end
  | None, None | Some _, Some _ => (inl ConfigResolution, w)
  end.

Definition deserialize (data : SerializedStuffDocumentsChain) : M World StuffDocumentsChain :=
  serializedLLMChain ← resolveConfigFromFile "llm_chain" data;
  chain ← llmChain_deserialize serializedLLMChain;
  mret (new {| f_llmChain := chain; f_inputKey := None; f_outputKey := None;
               f_documentVariableName := None |}).

Definition serialize (self : StuffDocumentsChain) : SerializedStuffDocumentsChain := {|
  _type := _chainType self;
  llm_chain := Some (LLMChain_serialize (llmChain self));
  llm_chain_path := None
|}.

End Chain.

Arguments StuffDocumentsChain : clear implicits.
Arguments SerializedStuffDocumentsChain : clear implicits.
Arguments Fields : clear implicits.
Arguments World : clear implicits.

End StuffDocumentsChain.

(** ** Concrete collaborators, for running the definitions *)

Module Scenario.
Import OpenAI.

(** A provider that answers every prompt of a request with [n] copies of
    the prompt itself. Its state counts the attempts it has received; it
    rejects the attempts whose number is in [down]. *)
Definition prompts_of (request : CreateCompletionRequest) : list string :=
  match request !! "prompt" with
  | Some (VStrings prompts) => prompts
  | _ => []
  end.

Definition echo_choice (prompt : string) : Api.Choice := {|
  Api.text := Some prompt;
  Api.index := None;
  Api.logprobs := None;
  Api.finish_reason := Some "stop"
|}.

Definition echo_response (n : nat) (request : CreateCompletionRequest)
    : Api.CreateCompletionResponse := {|
  Api.choices := concat (map (λ prompt, replicate n (echo_choice prompt)) (prompts_of request));
  Api.usage := Some {|
    Api.prompt_tokens := Some (Z.of_nat (length (prompts_of request)));
    Api.completion_tokens := Some (Z.of_nat (n * length (prompts_of request)));
    Api.total_tokens := Some (Z.of_nat ((1 + n) * length (prompts_of request)))
  |}
|}.

Definition echo (n : nat) (down : list nat)
    : CreateCompletionRequest → nat → (exn + Api.CreateCompletionResponse) * nat :=
  λ request attempt,
  (if bool_decide (attempt ∈ down) then inl (Error "503 Service Unavailable")
   else inr (echo_response n request),
   S attempt).

Definition echoes (prompt : string) (choice : Api.Choice) : Prop :=
  Api.text choice = Some prompt.

(** A provider that completes nothing: one empty choice per request, and
    a usage that reports the completion tokens as 0. *)
Definition silent : CreateCompletionRequest → nat → (exn + Api.CreateCompletionResponse) * nat :=
  λ request attempt,
  (inr {| Api.choices := [ {| Api.text := Some ""; Api.index := None;
                              Api.logprobs := None; Api.finish_reason := Some "length" |} ];
          Api.usage := Some {| Api.prompt_tokens := Some 5%Z;
                               Api.completion_tokens := Some 0%Z;
                               Api.total_tokens := Some 5%Z |} |},
   S attempt).

(** A provider that rejects everything. *)
Definition down : CreateCompletionRequest → nat → (exn + Api.CreateCompletionResponse) * nat :=
  λ request attempt, (inl (Error "503 Service Unavailable"), S attempt).

(** [new OpenAI({ batchSize, n, stop })] *)
Definition engine (batchSize n : Z) (stop : option (list string)) : OpenAI :=
  new (mkOpenAIFields None None None None None (Some n) None None None None
         (Some batchSize) None stop).

Definition fresh : World nat := {| invocations := []; remote := 0 |}.

(** An inner chain that is its prompt template: it answers every call with
    the template under the key "text" and counts the calls; its serialized
    form is the template. *)
#[global] Instance template_chain : StuffDocumentsChain.LLMChainLike string string nat := {|
  StuffDocumentsChain.LLMChain_call := λ template values calls,
    (inr {[ "text" := VString template ]}, S calls);
  StuffDocumentsChain.LLMChain_serialize := λ template, template;
  StuffDocumentsChain.LLMChain_deserialize := λ data calls, (inr data, calls)
|}.

(** [new StuffDocumentsChain({ llmChain })] *)
Definition stuffer : StuffDocumentsChain.StuffDocumentsChain string :=
  StuffDocumentsChain.new (StuffDocumentsChain.mkFields "Summarize: {context}" None None None).

(** [new StuffDocumentsChain({ llmChain, inputKey: "docs", outputKey:
    "summary", documentVariableName: "text" })] *)
Definition renamed_stuffer : StuffDocumentsChain.StuffDocumentsChain string :=
  StuffDocumentsChain.new
    (StuffDocumentsChain.mkFields "Summarize: {text}" (Some "docs") (Some "summary") (Some "text")).

(** [new StuffDocumentsChain({ llmChain, inputKey: "context" })] *)
Definition same_key_stuffer : StuffDocumentsChain.StuffDocumentsChain string :=
  StuffDocumentsChain.new
    (StuffDocumentsChain.mkFields "Summarize: {context}" (Some "context") None None).


Definition doc (pageContent : string) : Document := mkDocument pageContent ∅.

(** "A\n\nB" *)
Definition A_B : string := "A" +:+ newline +:+ newline +:+ "B".

(** No inner call yet, and the inner configuration of [stuffer] stored
    at "chain.json". *)
Definition start : StuffDocumentsChain.World string nat := {|
  StuffDocumentsChain.files := {[ "chain.json" := "Summarize: {context}" ]};
  StuffDocumentsChain.inner_calls := [];
  StuffDocumentsChain.inner := 0
|}.

End Scenario.

(** * Properties *)

(** ** The chunker *)

Section ChunkerFacts.
Import Util.
Context {A : Type}.
Implicit Types (arr : list A) (size fuel : nat).

Lemma chunks_upto_step fuel size arr :
  arr ≠ [] →
  chunks_upto (S fuel) size arr = take size arr :: chunks_upto fuel size (drop size arr).
Proof. by destruct arr. Qed.

(** Any two fuels that cover the array give the same chunks. *)
Lemma chunks_upto_fuel fuel fuel' size arr :
  0 < size → length arr ≤ fuel → length arr ≤ fuel' →
  chunks_upto fuel size arr = chunks_upto fuel' size arr.
Proof.
  intros Hsize. revert fuel' arr.
  induction fuel as [|fuel IH]; intros fuel' arr Hlen Hlen'.
  - destruct arr; simpl in *; [by destruct fuel'|lia].
  - destruct arr as [|a arr]; [by destruct fuel'|].
    destruct fuel' as [|fuel']; simpl in Hlen'; [lia|].
    rewrite !chunks_upto_step by done. f_equal.
    apply IH; rewrite length_drop; simpl in *; lia.
Qed.

Lemma chunks_upto_enough fuel size arr :
  0 < size → length arr ≤ fuel → chunks_upto fuel size arr = chunks size arr.
Proof. intros. by apply chunks_upto_fuel. Qed.

Lemma chunks_nil size : chunks size ([] : list A) = [].
Proof. done. Qed.

Lemma chunks_unfold size arr :
  0 < size → arr ≠ [] →
  chunks size arr = take size arr :: chunks size (drop size arr).
Proof.
  intros Hsize Harr. unfold chunks at 1.
  destruct arr as [|a arr]; [done|].
  change (length (a :: arr)) with (S (length arr)).
  rewrite chunks_upto_step by done. f_equal.
  apply chunks_upto_enough; [done|]. rewrite length_drop. simpl. lia.
Qed.

(** A full first chunk is split off as it is. *)
Lemma chunks_app size (g rest : list A) :
  0 < size → length g = size → chunks size (g ++ rest) = g :: chunks size rest.
Proof.
  intros Hsize Hg. rewrite chunks_unfold; [|done|].
  - by rewrite take_app_length', drop_app_length'.
  - destruct g; simpl in *; [lia|done].
Qed.

(** Regrouping a flat list of groups of one size gives the groups back. *)
Lemma chunks_concat size (groups : list (list A)) :
  0 < size → Forall (λ g, length g = size) groups → chunks size (concat groups) = groups.
Proof.
  intros Hsize. induction 1 as [|g groups Hg _ IH]; [done|].
  simpl. by rewrite chunks_app, IH.
Qed.

Lemma concat_chunks size arr : 0 < size → concat (chunks size arr) = arr.
Proof.
  intros Hsize.
  induction arr as [arr IH] using (induction_ltof1 _ (@length A)). unfold ltof in IH.
  destruct (decide (arr = [])) as [->|Harr]; [done|].
  rewrite chunks_unfold by done. simpl. rewrite IH, take_drop; [done|].
  rewrite length_drop. destruct arr; simpl in *; [done|lia].
Qed.

(** Chunk [i] is the slice of the array that starts at [i * size]. *)
Lemma chunks_lookup size arr i c :
  0 < size →
  chunks size arr !! i = Some c ↔ i * size < length arr ∧ c = take size (drop (i * size) arr).
Proof.
  intros Hsize. revert arr.
  induction i as [|i IH]; intros arr.
  - destruct (decide (arr = [])) as [->|Harr].
    + rewrite chunks_nil. simpl. split; [done|]. intros [? _]. lia.
    + rewrite chunks_unfold by done. simpl. split.
      * intros [= <-]. split; [|done]. destruct arr; simpl in *; [done|lia].
      * by intros [_ ->].
  - destruct (decide (arr = [])) as [->|Harr].
    + rewrite chunks_nil. simpl. split; [done|]. intros [? _]. lia.
    + rewrite chunks_unfold by done. simpl. rewrite IH.
      rewrite length_drop, drop_drop.
      split; intros [Hlt ->]; (split; [lia|done]).
Qed.

Lemma chunks_length_bound size arr i :
  0 < size → i < length (chunks size arr) ↔ i * size < length arr.
Proof.
  intros Hsize. rewrite <-lookup_lt_is_Some. split.
  - intros [c Hc]. by apply chunks_lookup in Hc as [? _].
  - intros Hlt. eexists. by apply chunks_lookup.
Qed.

Lemma chunks_chunk_length size arr i c :
  0 < size → chunks size arr !! i = Some c →
  length c = size `min` (length arr - i * size).
Proof.
  intros Hsize [Hlt ->]%chunks_lookup; [|done].
  by rewrite length_take, length_drop.
Qed.

Lemma chunkArray_positive arr (chunkSize : Z) :
  (0 < chunkSize)%Z → chunkArray arr chunkSize = inr (chunks (Z.to_nat chunkSize) arr).
Proof. intros. unfold chunkArray. case_decide; [lia|done]. Qed.

Lemma chunkArray_returns arr (chunkSize : Z) cs :
  chunkArray arr chunkSize = inr cs →
  (0 < chunkSize)%Z ∧ cs = chunks (Z.to_nat chunkSize) arr.
Proof. unfold chunkArray. case_decide; [done|]. intros [= <-]. split; [lia|done]. Qed.

End ChunkerFacts.

Section ChunkerContract.
Import Util.
Context {A : Type}.

(** C5. For every sequence [arr] and every positive chunk size [k] the
    chunker returns sub-sequences whose concatenation in order is [arr];
    every sub-sequence before the last has length [k], and the last one has
    length [length arr mod k] when [k] does not divide the length and [k] when
    it does. With a chunk size that is not positive it fails with
    [InvalidArgument]. It is a function of its two arguments alone: it takes
    no state and returns none. *)
Theorem chunkArray_contract (arr : list A) (k : Z) :
  ((k ≤ 0)%Z → chunkArray arr k = inl InvalidArgument) ∧
  ((0 < k)%Z → ∃ cs : list (list A),
      chunkArray arr k = inr cs ∧
      concat cs = arr ∧
      (∀ i c, cs !! i = Some c → i + 1 < length cs → Z.of_nat (length c) = k) ∧
      (∀ c, last cs = Some c →
         Z.of_nat (length c) =
           if decide (Z.of_nat (length arr) `mod` k = 0)%Z then k
           else (Z.of_nat (length arr) `mod` k)%Z)).
Proof.
  unfold chunkArray. split; intros Hk; case_decide; try lia; [done|].
  set (size := Z.to_nat k). assert (Hsize : 0 < size) by lia.
  exists (chunks size arr). split_and!; [done|by apply concat_chunks|..].
  - intros i c Hc Hi. apply chunks_length_bound in Hi; [|done].
    rewrite (chunks_chunk_length _ _ _ _ Hsize Hc). lia.
  - intros c Hc. rewrite last_lookup in Hc.
    assert (Hlen : pred (length (chunks size arr)) < length (chunks size arr))
      by (apply lookup_lt_is_Some; eauto).
    set (m := pred (length (chunks size arr))) in *.
    assert (Hnext : ¬ (S m < length (chunks size arr))) by lia.
    rewrite chunks_length_bound in Hlen, Hnext by done.
    rewrite (chunks_chunk_length _ _ _ _ Hsize Hc).
    replace k with (Z.of_nat size) by lia.
    rewrite <-Nat2Z.inj_mod.
    assert (Hmod : length arr `mod` size = if decide (length arr = S m * size) then 0
                                         else length arr - m * size).
    { case_decide as Heq.
      - rewrite Heq. by apply Nat.Div0.mod_mul.
      - symmetry. apply (Nat.mod_unique _ _ m); lia. }
    rewrite Hmod. repeat case_decide; lia.
Qed.

End ChunkerContract.

(** The contract at the chunk size 2 on a sequence of five. *)
Lemma chunkArray_contract_witness :
  (0 < 2)%Z ∧
  ∃ cs : list (list nat),
    Util.chunkArray [1; 2; 3; 4; 5] 2 = inr cs ∧
    concat cs = [1; 2; 3; 4; 5] ∧
    (∀ i c, cs !! i = Some c → i + 1 < length cs → Z.of_nat (length c) = 2%Z) ∧
    (∀ c, last cs = Some c → Z.of_nat (length c) = 1%Z).
Proof.
  split; [lia|].
  apply (proj2 (chunkArray_contract [1; 2; 3; 4; 5] 2)). lia.
Defined.

Example chunkArray_five_by_two :
  Util.chunkArray [1; 2; 3; 4; 5] 2 = inr [[1; 2]; [3; 4]; [5]].
Proof. reflexivity. Qed.

Example chunkArray_size_zero :
  Util.chunkArray [1; 2; 3] 0 = inl InvalidArgument.
Proof. reflexivity. Qed.

(** ** The engine *)

Section EngineFacts.
Import Util OpenAI.
Context {R : Type}.
Variable createCompletion :
  CreateCompletionRequest → R → (exn + Api.CreateCompletionResponse) * R.

Local Abbreviation World := (World R).
Local Abbreviation served := (served createCompletion).
Local Abbreviation generate_loop := (generate_loop createCompletion).
Local Abbreviation completionWithRetry := (completionWithRetry createCompletion).
Local Abbreviation _generate := (_generate createCompletion).

Lemma bind_inr {S A B} (m : M S A) (k : A → M S B) s a s' :
  m s = (inr a, s') → (m ≫= k) s = k a s'.
Proof. unfold mbind, M_bind. by intros ->. Qed.

Lemma bind_inl {S A B} (m : M S A) (k : A → M S B) s e s' :
  m s = (inl e, s') → (m ≫= k) s = (inl e, s').
Proof. unfold mbind, M_bind. by intros ->. Qed.

Lemma bind_inv {S A B} (m : M S A) (k : A → M S B) s b s' :
  (m ≫= k) s = (inr b, s') → ∃ a s1, m s = (inr a, s1) ∧ k a s1 = (inr b, s').
Proof.
  unfold mbind, M_bind. destruct (m s) as [[e|a] s1]; [done|]. eauto.
Qed.

(** The loop over served batches appends the choices of the responses in
    order and folds their usages into the accumulator. *)
Lemma generate_loop_served self params batches w datas w' choices tokenUsage :
  served self params batches w datas w' →
  generate_loop self params batches choices tokenUsage w =
    (inr (choices ++ concat (map Api.choices datas),
          foldl add_usage tokenUsage (map Api.usage datas)), w').
Proof.
  intros Hrun. revert choices tokenUsage.
  induction Hrun as [w|prompt rest data datas w w1 w2 Hcall _ IH]; intros choices tokenUsage.
  - simpl. by rewrite app_nil_r.
  - cbn [generate_loop]. rewrite (bind_inr _ _ _ _ _ Hcall), IH.
    simpl. by rewrite <-app_assoc.
Qed.

(** Conversely, a loop that returns has been served. *)
Lemma generate_loop_returns self params batches w choices tokenUsage r w' :
  generate_loop self params batches choices tokenUsage w = (inr r, w') →
  ∃ datas, served self params batches w datas w' ∧
    r = (choices ++ concat (map Api.choices datas),
         foldl add_usage tokenUsage (map Api.usage datas)).
Proof.
  revert w choices tokenUsage.
  induction batches as [|prompt rest IH]; intros w choices tokenUsage Hloop.
  - injection Hloop as <- <-. exists []. split; [constructor|].
    simpl. by rewrite app_nil_r.
  - cbn [generate_loop] in Hloop.
    apply bind_inv in Hloop as (data & w1 & Hcall & Hrest).
    apply IH in Hrest as (datas & Hrun & ->).
    exists (data :: datas). split; [by econstructor|].
    simpl. by rewrite <-app_assoc.
Qed.

(** The first batch that is not answered ends the loop with its error. *)
Lemma generate_loop_fails self params before prompt after w datas w1 e w2 choices tokenUsage :
  served self params before w datas w1 →
  completionWithRetry self (with_prompt prompt params) w1 = (inl e, w2) →
  generate_loop self params (before ++ prompt :: after) choices tokenUsage w = (inl e, w2).
Proof.
  intros Hrun Hfail. revert choices tokenUsage.
  induction Hrun as [w|p rest data datas w w0 w1 Hcall _ IH]; intros choices tokenUsage.
  - cbn [app generate_loop]. by rewrite (bind_inl _ _ _ _ _ Hfail).
  - cbn [app generate_loop]. rewrite (bind_inr _ _ _ _ _ Hcall). by apply IH.
Qed.

(** [_generate] when the two stop lists do not conflict. *)
Lemma generate_unfold self prompts stop' batches w :
  chunkArray prompts (batchSize self) = inr batches →
  ¬ stop_conflict self stop' →
  _generate self prompts stop' w =
    ('(choices, tokenUsage) ←
        generate_loop self (with_stop stop' (invocationParams self)) batches [] no_usage;
     promptChoices ← lift (chunkArray choices (n self));
     mret {| generations := map (map to_generation) promptChoices;
             llmOutput := {| tokenUsage := tokenUsage |} |}) w.
Proof.
  intros Hchunk Hstop. unfold OpenAI._generate.
  rewrite (bind_inr _ _ w batches w) by (unfold lift; by rewrite Hchunk).
  by rewrite bool_decide_eq_false_2.
Qed.

(** [_generate] when they do. *)
Lemma generate_conflict self prompts stop' w :
  (0 < batchSize self)%Z →
  stop_conflict self stop' →
  _generate self prompts stop' w =
    (inl (Error "Stop found in input and default params"), w).
Proof.
  intros Hsize Hstop. unfold OpenAI._generate.
  rewrite (bind_inr _ _ w _ w) by (unfold lift; by rewrite chunkArray_positive).
  by rewrite bool_decide_eq_true_2.
Qed.

End EngineFacts.

Section Regrouping.
Import Util OpenAI.
Context {R : Type}.
Variable createCompletion :
  CreateCompletionRequest → R → (exn + Api.CreateCompletionResponse) * R.
Variable answers : string → Api.Choice → Prop.

(** The groups of the batches of a run, one after the other, are the
    groups of the whole prompt list. *)
Lemma in_prompt_order_concat n (batches : list (list string))
    (datas : list Api.CreateCompletionResponse) :
  Forall2 (λ batch data, in_prompt_order answers n batch (Api.choices data)) batches datas →
  in_prompt_order answers n (concat batches) (concat (map Api.choices datas)).
Proof.
  induction 1 as [|batch data batches datas (groups & Hgroups & Hdata) _ (rest & Hrest & IH)].
  - exists []. by split; [constructor|].
  - exists (groups ++ rest). split; [by apply Forall2_app|].
    simpl. by rewrite Hdata, IH, concat_app.
Qed.

(** C1. When every batch of a call is answered, each response holding the
    [n] completions of each of its prompts together and in the order of the
    prompts, [_generate] returns one group per prompt, in the order of the
    prompts, each made of [n] generations built from completions of that
    prompt: whatever the batch size that cut the prompts into batches. *)
Theorem generate_groups (self : OpenAI) (prompts : list string) (stop' : option (list string))
    (batches : list (list string)) (datas : list Api.CreateCompletionResponse) (w w' : World R) :
  (0 < n self)%Z →
  ¬ stop_conflict self stop' →
  chunkArray prompts (batchSize self) = inr batches →
  served createCompletion self (with_stop stop' (invocationParams self)) batches w datas w' →
  Forall2 (λ batch data, in_prompt_order answers (Z.to_nat (n self)) batch (Api.choices data))
    batches datas →
  ∃ result : LLMResult,
    _generate createCompletion self prompts stop' w = (inr result, w') ∧
    length (generations result) = length prompts ∧
    Forall (λ group, Z.of_nat (length group) = n self) (generations result) ∧
    aligned answers (Z.to_nat (n self)) prompts (generations result).
Proof.
  intros Hn Hstop Hchunk Hrun Hdatas.
  apply in_prompt_order_concat in Hdatas as (groups & Hgroups & Hflat).
  apply chunkArray_returns in Hchunk as Hbatches. destruct Hbatches as [Hsize ->].
  rewrite concat_chunks in Hgroups by lia.
  assert (Hregroup : chunkArray (concat (map Api.choices datas)) (n self) = inr groups).
  { rewrite chunkArray_positive by done. rewrite Hflat, chunks_concat; [done|lia|].
    eapply Forall2_Forall_r; [exact Hgroups|]. apply Forall_true. by intros ? ? [? _]. }
  exists {| generations := map (map to_generation) groups;
            llmOutput := {| tokenUsage := accumulate (map Api.usage datas) |} |}.
  assert (Haligned : aligned answers (Z.to_nat (n self)) prompts (map (map to_generation) groups)).
  { unfold aligned. apply Forall2_fmap_r.
    eapply Forall2_impl; [exact Hgroups|]. intros prompt group [Hlen Hall]. split.
    - by rewrite length_map.
    - apply Forall_fmap. eapply Forall_impl; [exact Hall|]. simpl. eauto. }
  split_and!; [| | |exact Haligned].
  - rewrite (generate_unfold _ _ _ _ _ _ Hchunk Hstop).
    rewrite (bind_inr _ _ _ _ _ (generate_loop_served _ _ _ _ _ _ _ [] no_usage Hrun)).
    simpl. by rewrite (bind_inr _ _ w' groups w') by (unfold lift; by rewrite Hregroup).
  - symmetry. exact (Forall2_length _ _ _ Haligned).
  - eapply Forall2_Forall_r; [exact Haligned|]. apply Forall_true. intros ? ? [? _]. lia.
Qed.

End Regrouping.

(** The run of C1 at three prompts in batches of two, two completions per
    prompt, with a provider that rejects the first attempt. *)
Lemma generate_groups_witness :
  ∃ (w' : OpenAI.World nat) (result : OpenAI.LLMResult),
    OpenAI._generate (Scenario.echo 2 [0]) (Scenario.engine 2 2 None) ["a"; "b"; "c"] None
      Scenario.fresh = (inr result, w') ∧
    length (OpenAI.generations result) = 3 ∧
    Forall (λ group, Z.of_nat (length group) = 2%Z) (OpenAI.generations result) ∧
    OpenAI.aligned Scenario.echoes 2 ["a"; "b"; "c"] (OpenAI.generations result).
Proof.
  eexists.
  eapply (generate_groups (Scenario.echo 2 [0]) Scenario.echoes (Scenario.engine 2 2 None)
            ["a"; "b"; "c"] None [["a"; "b"]; ["c"]]).
  - done.
  - by intros [_ [? ?]].
  - reflexivity.
  - econstructor; [reflexivity|]. econstructor; [reflexivity|]. constructor.
  - constructor; [|constructor; [|constructor]].
    + exists [replicate 2 (Scenario.echo_choice "a"); replicate 2 (Scenario.echo_choice "b")].
      split; [|reflexivity]. repeat constructor.
    + exists [replicate 2 (Scenario.echo_choice "c")].
      split; [|reflexivity]. repeat constructor.
Defined.

(** The same prompts give the same groups under any of three batch sizes. *)
Example generate_batch_sizes :
  let run := λ batchSize,
    fst (OpenAI._generate (Scenario.echo 2 []) (Scenario.engine batchSize 2 None)
           ["a"; "b"; "c"] None Scenario.fresh) in
  let gen := λ prompt, OpenAI.to_generation (Scenario.echo_choice prompt) in
  (sum_map id OpenAI.generations (run 1%Z)) = inr [[gen "a"; gen "a"]; [gen "b"; gen "b"]; [gen "c"; gen "c"]] ∧
  (sum_map id OpenAI.generations (run 2%Z)) = (sum_map id OpenAI.generations (run 1%Z)) ∧
  (sum_map id OpenAI.generations (run 20%Z)) = (sum_map id OpenAI.generations (run 1%Z)).
Proof. vm_compute. done. Qed.

Section Failure.
Import Util OpenAI.
Context {R : Type}.
Variable createCompletion :
  CreateCompletionRequest → R → (exn + Api.CreateCompletionResponse) * R.

(** C7. When the batches before some batch are answered and that batch is
    not, its retries exhausted on the error [e], the whole call fails with
    [e] and nothing else: the result is the error alone, it carries none of
    the choices and counters of the answered batches, and the world is the
    one the failed batch left, so no later batch reaches the transport. *)
Theorem generate_all_or_nothing (self : OpenAI) (prompts : list string)
    (stop' : option (list string)) (before after : list (list string)) (prompt : list string)
    (datas : list Api.CreateCompletionResponse) (e : exn) (w w1 w2 : World R) :
  ¬ stop_conflict self stop' →
  chunkArray prompts (batchSize self) = inr (before ++ prompt :: after) →
  served createCompletion self (with_stop stop' (invocationParams self)) before w datas w1 →
  completionWithRetry createCompletion self
    (with_prompt prompt (with_stop stop' (invocationParams self))) w1 = (inl e, w2) →
  _generate createCompletion self prompts stop' w = (inl e, w2).
Proof.
  intros Hstop Hchunk Hrun Hfail.
  rewrite (generate_unfold _ _ _ _ _ _ Hchunk Hstop).
  apply bind_inl. by eapply generate_loop_fails.
Qed.

(** A call that returns a result had no conflict to report and had every
    batch answered; the result is made of the responses alone. *)
Lemma generate_returns (self : OpenAI) (prompts : list string) (stop' : option (list string))
    (result : LLMResult) (w w' : World R) :
  _generate createCompletion self prompts stop' w = (inr result, w') →
  ¬ stop_conflict self stop' ∧
  ∃ batches datas,
    chunkArray prompts (batchSize self) = inr batches ∧
    served createCompletion self (with_stop stop' (invocationParams self)) batches w datas w' ∧
    (0 < n self)%Z ∧
    generations result
      = map (map to_generation) (chunks (Z.to_nat (n self)) (concat (map Api.choices datas))) ∧
    tokenUsage (llmOutput result) = accumulate (map Api.usage datas).
Proof.
  unfold OpenAI._generate. intros Hgen.
  apply bind_inv in Hgen as (batches & w0 & Hchunk & Hgen).
  injection Hchunk as Hchunk <-.
  case_bool_decide as Hstop; [done|]. split; [done|].
  apply bind_inv in Hgen as ([choices usage] & w1 & Hloop & Hgen).
  apply generate_loop_returns in Hloop as (datas & Hrun & [= -> ->]).
  apply bind_inv in Hgen as (groups & w2 & Hregroup & Hgen).
  injection Hregroup as Hregroup <-. injection Hgen as <- <-.
  apply chunkArray_returns in Hregroup as [Hn ->].
  exists batches, datas. by split_and!.
Qed.

(** And a call whose batches are all answered returns that result. *)
Lemma generate_served (self : OpenAI) (prompts : list string) (stop' : option (list string))
    (batches : list (list string)) (datas : list Api.CreateCompletionResponse) (w w' : World R) :
  ¬ stop_conflict self stop' →
  chunkArray prompts (batchSize self) = inr batches →
  (0 < n self)%Z →
  served createCompletion self (with_stop stop' (invocationParams self)) batches w datas w' →
  _generate createCompletion self prompts stop' w =
    (inr {| generations := map (map to_generation)
                             (chunks (Z.to_nat (n self)) (concat (map Api.choices datas)));
            llmOutput := {| tokenUsage := accumulate (map Api.usage datas) |} |}, w').
Proof.
  intros Hstop Hchunk Hn Hrun.
  rewrite (generate_unfold _ _ _ _ _ _ Hchunk Hstop).
  rewrite (bind_inr _ _ _ _ _ (generate_loop_served _ _ _ _ _ _ _ [] no_usage Hrun)).
  simpl. by rewrite (bind_inr _ _ w' _ w') by (unfold lift; by rewrite chunkArray_positive).
Qed.

End Failure.

(** The run of C7 at three prompts in batches of one: the provider answers
    the first batch and rejects the six attempts of the second. *)
Lemma generate_all_or_nothing_witness :
  ∃ w2 : OpenAI.World nat,
    OpenAI._generate (Scenario.echo 1 [1; 2; 3; 4; 5; 6]) (Scenario.engine 1 1 None)
      ["a"; "b"; "c"] None Scenario.fresh = (inl (Error "503 Service Unavailable"), w2) ∧
    length (OpenAI.invocations w2) = 7.
Proof.
  eexists. split.
  - eapply (generate_all_or_nothing (Scenario.echo 1 [1; 2; 3; 4; 5; 6]) (Scenario.engine 1 1 None)
              ["a"; "b"; "c"] None [["a"]] [["c"]] ["b"]).
    + by intros [_ [? ?]].
    + reflexivity.
    + econstructor; [reflexivity|]. constructor.
    + reflexivity.
  - reflexivity.
Defined.

Section StopConflict.
Import Util OpenAI.
Context {R : Type}.
Variable createCompletion :
  CreateCompletionRequest → R → (exn + Api.CreateCompletionResponse) * R.

(** C2. An engine configured with a non-empty stop list, called with a
    non-empty stop list, fails with the stop-conflict error, and the world
    after the call is the world before it: the transport has received no
    request and the provider has not moved. *)
Theorem generate_stop_conflict_fails_fast (self : OpenAI) (prompts : list string)
    (configured override : list string) (w : World R) :
  (0 < batchSize self)%Z →
  stop self = Some configured → configured ≠ [] → override ≠ [] →
  ∃ w' : World R,
    _generate createCompletion self prompts (Some override) w
      = (inl (Error "Stop found in input and default params"), w') ∧
    invocations w' = invocations w ∧
    remote w' = remote w.
Proof.
  intros Hsize Hstop _ _. exists w. split; [|done].
  apply generate_conflict; [done|]. split; [by rewrite Hstop|done].
Qed.

(** C10. The conflict is one of presence: an engine whose stop list is
    defined, called with a stop list that is defined, fails with the
    stop-conflict error whatever the two lists hold, the empty list
    included. *)
Theorem generate_stop_conflict_presence (self : OpenAI) (prompts : list string)
    (stop' : option (list string)) (w : World R) :
  (0 < batchSize self)%Z →
  is_Some (stop self) → is_Some stop' →
  _generate createCompletion self prompts stop' w
    = (inl (Error "Stop found in input and default params"), w).
Proof. intros Hsize Hself Hstop. by apply generate_conflict. Qed.

(** With either list undefined the call goes on to the batches. *)
Lemma generate_no_conflict (self : OpenAI) (prompts : list string)
    (stop' : option (list string)) (w : World R) :
  stop self = None ∨ stop' = None →
  (0 < batchSize self)%Z →
  _generate createCompletion self prompts stop' w =
    ('(choices, tokenUsage) ←
        generate_loop createCompletion self (with_stop stop' (invocationParams self))
          (chunks (Z.to_nat (batchSize self)) prompts) [] no_usage;
     promptChoices ← lift (chunkArray choices (n self));
     mret {| generations := map (map to_generation) promptChoices;
             llmOutput := {| tokenUsage := tokenUsage |} |}) w.
Proof.
  intros Hnone Hsize. apply generate_unfold; [by apply chunkArray_positive|].
  intros [[? Hself] [? Hstop]]. destruct Hnone; congruence.
Qed.

End StopConflict.

(** The call of C2 with the stop lists ["."] and ["END"]. *)
Lemma generate_stop_conflict_fails_fast_witness :
  ∃ w' : OpenAI.World nat,
    OpenAI._generate (Scenario.echo 1 []) (Scenario.engine 20 1 (Some ["."]))
      ["a"; "b"] (Some ["END"]) Scenario.fresh
      = (inl (Error "Stop found in input and default params"), w') ∧
    OpenAI.invocations w' = [] ∧
    OpenAI.remote w' = 0.
Proof.
  apply (generate_stop_conflict_fails_fast (Scenario.echo 1 []) (Scenario.engine 20 1 (Some ["."]))
           ["a"; "b"] ["."] ["END"] Scenario.fresh); done.
Defined.

(** The call of C10 with both stop lists empty. *)
Lemma generate_stop_conflict_presence_witness :
  OpenAI._generate (Scenario.echo 1 []) (Scenario.engine 20 1 (Some []))
    ["a"; "b"] (Some []) Scenario.fresh
    = (inl (Error "Stop found in input and default params"), Scenario.fresh).
Proof.
  apply (generate_stop_conflict_presence (Scenario.echo 1 []) (Scenario.engine 20 1 (Some []))
           ["a"; "b"] (Some []) Scenario.fresh); done.
Defined.

(** One empty list against an undefined one is no conflict. *)
Example generate_empty_stop_alone :
  sum_map id (length ∘ OpenAI.generations)
    (fst (OpenAI._generate (Scenario.echo 1 []) (Scenario.engine 20 1 (Some []))
            ["a"; "b"] None Scenario.fresh)) = inr 2.
Proof. reflexivity. Qed.

(** ** Token usage *)

Section TokenUsageFacts.
Import Util OpenAI.

(** An absent counter, and a counter of 0, leave the accumulated value as
    it is. *)
Lemma add_tokens_falsy acc tokens : falsy tokens → add_tokens acc tokens = acc.
Proof. by intros [-> | ->]. Qed.

Lemma add_tokens_truthy acc tokens :
  ¬ falsy tokens → add_tokens acc tokens = Some (default 0 acc + default 0 tokens)%Z.
Proof.
  unfold falsy, add_tokens. destruct tokens as [t|]; [|naive_solver].
  case_decide; naive_solver.
Qed.

(** The guarded additions in closed form. *)
Lemma sum_tokens_falsy counts : Forall falsy counts → sum_tokens counts = 0%Z.
Proof. induction 1 as [|? ? [-> | ->] _ IH]; simpl; lia. Qed.

Lemma foldl_add_tokens acc counts :
  foldl add_tokens acc counts =
    if decide (Forall falsy counts) then acc
    else Some (default 0 acc + sum_tokens counts)%Z.
Proof.
  revert acc. induction counts as [|t counts IH]; intros acc.
  - case_decide as Hnil; [done|]. destruct Hnil. constructor.
  - cbn [foldl]. rewrite IH. destruct (decide (falsy t)) as [Ht|Ht].
    + rewrite add_tokens_falsy by done.
      assert (default 0%Z t = 0%Z) as Ht0 by (by destruct Ht as [-> | ->]).
      destruct (decide (Forall falsy counts)) as [Hrest|Hrest];
        destruct (decide (Forall falsy (t :: counts))) as [Hall|Hall]; try done.
      * destruct Hall. by constructor.
      * by inversion Hall.
      * cbn [sum_tokens foldr]. rewrite Ht0. f_equal.
    + rewrite add_tokens_truthy by done.
      destruct (decide (Forall falsy (t :: counts))) as [Hall|_];
        [by inversion Hall|].
      cbn [sum_tokens foldr]. fold (sum_tokens counts).
      case_decide as Hrest; simpl; f_equal; [|lia].
      rewrite (sum_tokens_falsy _ Hrest). lia.
Qed.

Lemma sum_tokens_perm counts counts' : counts ≡ₚ counts' → sum_tokens counts = sum_tokens counts'.
Proof. induction 1; simpl; lia. Qed.

Lemma foldl_add_tokens_perm acc counts counts' :
  counts ≡ₚ counts' → foldl add_tokens acc counts = foldl add_tokens acc counts'.
Proof.
  intros Hperm. rewrite !foldl_add_tokens, (sum_tokens_perm _ _ Hperm).
  destruct (decide (Forall falsy counts)) as [Hall|Hall].
  - by rewrite decide_True by (by rewrite <-Hperm).
  - by rewrite decide_False by (by rewrite <-Hperm).
Qed.

(** Each counter of the accumulator sees the batches through its own
    guarded addition. *)
Lemma foldl_add_usage acc usages reported total :
  (reported, total) ∈ counters →
  total (foldl add_usage acc usages) =
    foldl add_tokens (total acc) (map (λ u, reported (usage_or_empty u)) usages).
Proof.
  intros Hin. revert acc. induction usages as [|u usages IH]; intros acc; [done|].
  simpl. rewrite IH.
  unfold counters in Hin. set_unfold in Hin.
  by destruct Hin as [[= -> ->] | [[= -> ->] | [[= -> ->] | []]]].
Qed.

Lemma accumulate_perm usages usages' : usages ≡ₚ usages' → accumulate usages = accumulate usages'.
Proof.
  intros Hperm. unfold accumulate.
  assert (Hcounter : ∀ reported total, (reported, total) ∈ counters →
            total (foldl add_usage no_usage usages) = total (foldl add_usage no_usage usages')).
  { intros reported total Hin. rewrite !(foldl_add_usage _ _ reported) by done.
    apply foldl_add_tokens_perm. by apply fmap_Permutation. }
  destruct (foldl add_usage no_usage usages) as [c p t] eqn:E.
  destruct (foldl add_usage no_usage usages') as [c' p' t'] eqn:E'.
  pose proof (Hcounter Api.completion_tokens completionTokens) as Hc.
  pose proof (Hcounter Api.prompt_tokens promptTokens) as Hp.
  pose proof (Hcounter Api.total_tokens totalTokens) as Ht.
  unfold counters in *. simpl in *.
  rewrite Hc, Hp, Ht by set_solver. done.
Qed.

End TokenUsageFacts.

Section TokenUsage.
Import Util OpenAI.
Context {R : Type}.
Variable createCompletion :
  CreateCompletionRequest → R → (exn + Api.CreateCompletionResponse) * R.

(** C3, as the code has it. A call that returns a result was answered batch
    by batch, and for each of the three counters: the counter of the result,
    read as 0 when absent, is the sum over the responses of the counter they
    report, read as 0 when absent; a response that leaves the counter absent
    leaves the accumulated value as it is; the counter of the result is
    absent exactly when every response left it absent or reported it as 0;
    and accumulating the usages of the responses in any other order gives
    the same three counters. *)
Theorem generate_tokenUsage (self : OpenAI) (prompts : list string)
    (stop' : option (list string)) (result : LLMResult) (w w' : World R) :
  _generate createCompletion self prompts stop' w = (inr result, w') →
  ∃ (batches : list (list string)) (datas : list Api.CreateCompletionResponse),
    chunkArray prompts (batchSize self) = inr batches ∧
    served createCompletion self (with_stop stop' (invocationParams self)) batches w datas w' ∧
    Forall (λ '(reported, total),
        default 0%Z (total (tokenUsage (llmOutput result)))
          = reported_sum reported (map Api.usage datas) ∧
        (∀ (acc : TokenUsage) (u : option Api.Usage),
           reported (usage_or_empty u) = None → total (add_usage acc u) = total acc) ∧
        (total (tokenUsage (llmOutput result)) = None ↔
           Forall (λ u, falsy (reported (usage_or_empty u))) (map Api.usage datas)))
      counters ∧
    ∀ usages' : list (option Api.Usage),
      usages' ≡ₚ map Api.usage datas → accumulate usages' = tokenUsage (llmOutput result).
Proof.
  intros (_ & batches & datas & Hchunk & Hrun & _ & _ & Husage)%generate_returns.
  exists batches, datas. split_and!; [done..| |].
  - apply Forall_forall. intros [reported total] Hin.
    rewrite Husage. unfold accumulate, reported_sum.
    rewrite (foldl_add_usage _ _ reported) by done. rewrite foldl_add_tokens.
    pose proof (Forall_fmap (λ u, reported (usage_or_empty u)) falsy
                  (map Api.usage datas)) as Hfmap.
    assert (Hkeeps : ∀ (acc : TokenUsage) (u : option Api.Usage),
              reported (usage_or_empty u) = None → total (add_usage acc u) = total acc).
    { intros acc u Hnone.
      pose proof (foldl_add_usage acc [u] reported total Hin) as Hstep.
      simpl in Hstep. by rewrite Hstep, Hnone. }
    assert (total no_usage = None) as ->.
    { unfold counters in Hin. set_unfold in Hin.
      by destruct Hin as [[= -> ->] | [[= -> ->] | [[= -> ->] | []]]]. }
    case_decide as Hall; simpl.
    + rewrite sum_tokens_falsy by done. split_and!; [done..|]. split; [|done].
      intros _. by apply Hfmap.
    + split_and!; [lia|done|]. split; [done|]. intros Hall'. destruct Hall. by apply Hfmap.
  - intros usages' Hperm. rewrite Husage. by apply accumulate_perm.
Qed.

End TokenUsage.

(** What C3 says and the code does not: a counter that a response reports
    as 0 is absent from the result, as if no response had reported it. *)
Lemma tokenUsage_absent_though_reported :
  ∃ (result : OpenAI.LLMResult) (w' : OpenAI.World nat) (data : OpenAI.Api.CreateCompletionResponse),
    OpenAI._generate Scenario.silent (Scenario.engine 20 1 None) ["a"] None Scenario.fresh
      = (inr result, w') ∧
    OpenAI.served Scenario.silent (Scenario.engine 20 1 None)
      (OpenAI.with_stop None (OpenAI.invocationParams (Scenario.engine 20 1 None)))
      [["a"]] Scenario.fresh [data] w' ∧
    OpenAI.Api.completion_tokens (OpenAI.usage_or_empty (OpenAI.Api.usage data)) = Some 0%Z ∧
    OpenAI.completionTokens (OpenAI.tokenUsage (OpenAI.llmOutput result)) = None.
Proof.
  assert (Hrun : ∃ w' data,
            OpenAI.served Scenario.silent (Scenario.engine 20 1 None)
              (OpenAI.with_stop None (OpenAI.invocationParams (Scenario.engine 20 1 None)))
              [["a"]] Scenario.fresh [data] w' ∧
            OpenAI.Api.usage data
              = Some (OpenAI.Api.mkUsage (Some 5%Z) (Some 0%Z) (Some 5%Z))).
  { do 2 eexists. split; [econstructor; [reflexivity|constructor]|reflexivity]. }
  destruct Hrun as (w' & data & Hrun & Husage).
  eexists _, w', data. split_and!; [|exact Hrun|by rewrite Husage|].
  - apply (generate_served _ _ _ _ [["a"]] [data]); [by intros [_ [? ?]]|done..].
  - simpl. by rewrite Husage.
Qed.

(** The run of C3 at three prompts in batches of two. *)
Lemma generate_tokenUsage_witness :
  ∃ (result : OpenAI.LLMResult) (w' : OpenAI.World nat),
    OpenAI._generate (Scenario.echo 2 []) (Scenario.engine 2 2 None) ["a"; "b"; "c"] None
      Scenario.fresh = (inr result, w') ∧
    OpenAI.tokenUsage (OpenAI.llmOutput result)
      = {| OpenAI.completionTokens := Some 6%Z;
           OpenAI.promptTokens := Some 3%Z;
           OpenAI.totalTokens := Some 9%Z |} ∧
    ∃ (batches : list (list string)) (datas : list OpenAI.Api.CreateCompletionResponse),
      Util.chunkArray ["a"; "b"; "c"] 2 = inr batches ∧
      OpenAI.served (Scenario.echo 2 []) (Scenario.engine 2 2 None)
        (OpenAI.with_stop None (OpenAI.invocationParams (Scenario.engine 2 2 None)))
        batches Scenario.fresh datas w' ∧
      Forall (λ '(reported, total),
          default 0%Z (total (OpenAI.tokenUsage (OpenAI.llmOutput result)))
            = OpenAI.reported_sum reported (map OpenAI.Api.usage datas) ∧
          (∀ (acc : OpenAI.TokenUsage) (u : option OpenAI.Api.Usage),
             reported (OpenAI.usage_or_empty u) = None →
             total (OpenAI.add_usage acc u) = total acc) ∧
          (total (OpenAI.tokenUsage (OpenAI.llmOutput result)) = None ↔
             Forall (λ u, OpenAI.falsy (reported (OpenAI.usage_or_empty u)))
               (map OpenAI.Api.usage datas)))
        OpenAI.counters ∧
      ∀ usages' : list (option OpenAI.Api.Usage),
        usages' ≡ₚ map OpenAI.Api.usage datas →
        OpenAI.accumulate usages' = OpenAI.tokenUsage (OpenAI.llmOutput result).
Proof.
  eassert (Hrun : OpenAI._generate (Scenario.echo 2 []) (Scenario.engine 2 2 None)
                    ["a"; "b"; "c"] None Scenario.fresh = _).
  { eapply (generate_served _ _ _ _ [["a"; "b"]; ["c"]]); [by intros [_ [? ?]]|done..|].
    econstructor; [reflexivity|]. econstructor; [reflexivity|]. constructor. }
  eexists _, _. split_and!; [exact Hrun|reflexivity|].
  exact (generate_tokenUsage _ _ _ _ _ _ _ Hrun).
Defined.

(** ** The stuffing chain *)

Section ChainFacts.
Import StuffDocumentsChain.
Context `{LLMChainLike LLMChain SerializedLLMChain R}.

Local Abbreviation World := (World SerializedLLMChain R).

Lemma bind_ret {S A} (m : M S A) s : (x ← m; mret x) s = m s.
Proof. unfold mbind, M_bind. by destruct (m s) as [[e|a] s']. Qed.

(** [_call] on a map that binds the input key to documents is one call of
    the inner chain, on the map without the input key and with the joined
    texts under the context key. *)
Lemma call_unfold (self : StuffDocumentsChain LLMChain) (values : ChainValues)
    (docs : list Document) (w : World) :
  values !! inputKey self = Some (VDocuments docs) →
  _call self values w =
    llmChain_call (llmChain self)
      (<[documentVariableName self :=
           VString (join (newline +:+ newline) (map pageContent docs))]>
         (delete (inputKey self) values)) w.
Proof.
  intros Hdocs. unfold StuffDocumentsChain._call, has, get. rewrite Hdocs.
  unfold mbind at 1, M_bind at 1. cbn [lift page_contents]. unfold join_texts.
  rewrite map_map. apply bind_ret.
Qed.


(** C4, as the code has it. On a map that binds the input key to a list of
    documents, [_call] calls the inner chain once, with a map that binds the
    context key to the texts of the documents joined in order by two
    newlines, agrees with the input on every key other than the input key
    and the context key, and has no input key unless that is the context
    key; what [_call] returns is what the inner chain returned. *)
Theorem call_stuffs (self : StuffDocumentsChain LLMChain) (values : ChainValues)
    (docs : list Document) (w : World) :
  values !! inputKey self = Some (VDocuments docs) →
  ∃ merged : ChainValues,
    inner_calls (snd (_call self values w)) = inner_calls w ++ [merged] ∧
    fst (_call self values w) = fst (LLMChain_call (llmChain self) merged (inner w)) ∧
    inner (snd (_call self values w)) = snd (LLMChain_call (llmChain self) merged (inner w)) ∧
    merged !! documentVariableName self
      = Some (VString (join (newline +:+ newline) (map pageContent docs))) ∧
    (∀ key, key ≠ inputKey self → key ≠ documentVariableName self →
            merged !! key = values !! key) ∧
    (inputKey self ≠ documentVariableName self → merged !! inputKey self = None).
Proof.
  intros Hdocs. rewrite (call_unfold _ _ _ _ Hdocs).
  exists (<[documentVariableName self :=
              VString (join (newline +:+ newline) (map pageContent docs))]>
            (delete (inputKey self) values)).
  unfold llmChain_call.
  destruct (LLMChain_call _ _ _) as [r s]. simpl. split_and!; [done..| | |].
  - by rewrite lookup_insert_eq.
  - intros key Hinput Hcontext. by rewrite lookup_insert_ne, lookup_delete_ne.
  - intros Hne. by rewrite lookup_insert_ne, lookup_delete_eq.
Qed.

End ChainFacts.



(** An array of strings under the input key passes the unchecked
    assertion: the inner chain is called with nothing but separators. *)
Example call_on_strings :
  StuffDocumentsChain._call Scenario.stuffer
    {[ "input_documents" := VStrings ["x"; "y"] ]} Scenario.start
  = (inr {[ "text" := VString "Summarize: {context}" ]},
     {| StuffDocumentsChain.files := StuffDocumentsChain.files Scenario.start;
        StuffDocumentsChain.inner_calls :=
          [ {[ "context" := VString (newline +:+ newline) ]} ];
        StuffDocumentsChain.inner := 1 |}).
Proof. vm_compute. reflexivity. Qed.

(** The call of C4 on [{ input_documents: [{ pageContent: "A" },
    { pageContent: "B" }], other: 1 }]. *)
Lemma call_stuffs_witness :
  ∃ merged : gmap string value,
    StuffDocumentsChain.inner_calls
      (snd (StuffDocumentsChain._call Scenario.stuffer
              {[ "input_documents" := VDocuments [Scenario.doc "A"; Scenario.doc "B"];
                 "other" := VNumber 1 ]} Scenario.start)) = [merged] ∧
    fst (StuffDocumentsChain._call Scenario.stuffer
           {[ "input_documents" := VDocuments [Scenario.doc "A"; Scenario.doc "B"];
              "other" := VNumber 1 ]} Scenario.start)
      = inr {[ "text" := VString "Summarize: {context}" ]} ∧
    merged !! "context" = Some (VString Scenario.A_B) ∧
    merged !! "other" = Some (VNumber 1) ∧
    merged !! "input_documents" = None.
Proof.
  destruct (call_stuffs Scenario.stuffer
              {[ "input_documents" := VDocuments [Scenario.doc "A"; Scenario.doc "B"];
                 "other" := VNumber 1 ]}
              [Scenario.doc "A"; Scenario.doc "B"] Scenario.start)
    as (merged & Hcalls & Hresult & _ & Hcontext & Hother & Hinput); [reflexivity|].
  exists merged. split_and!.
  - exact Hcalls.
  - exact Hresult.
  - exact Hcontext.
  - rewrite (Hother "other"); [reflexivity|done..].
  - by apply Hinput.
Defined.

(** The example of the specification, in full. *)
Example call_stuffs_example :
  StuffDocumentsChain._call Scenario.stuffer
    {[ "input_documents" := VDocuments [Scenario.doc "A"; Scenario.doc "B"];
       "other" := VNumber 1 ]} Scenario.start
  = (inr {[ "text" := VString "Summarize: {context}" ]},
     {| StuffDocumentsChain.files := StuffDocumentsChain.files Scenario.start;
        StuffDocumentsChain.inner_calls :=
          [ {[ "other" := VNumber 1; "context" := VString Scenario.A_B ]} ];
        StuffDocumentsChain.inner := 1 |}).
Proof. vm_compute. reflexivity. Qed.

(** What C4 says and the code does not. A key of the input other than the
    input key is not kept when it is the context key: the joined text
    replaces its value. And the input key is not omitted when it is the
    context key: it then holds the joined text. *)
Lemma call_overwrites_context_key :
  (StuffDocumentsChain.inner_calls
     (snd (StuffDocumentsChain._call Scenario.stuffer
             {[ "input_documents" := VDocuments [Scenario.doc "A"; Scenario.doc "B"];
                "context" := VNumber 1 ]} Scenario.start))
   = [ {[ "context" := VString Scenario.A_B ]} ] ∧
   "context" ≠ StuffDocumentsChain.inputKey Scenario.stuffer ∧
   ({[ "input_documents" := VDocuments [Scenario.doc "A"; Scenario.doc "B"];
       "context" := VNumber 1 ]} : gmap string value) !! "context" = Some (VNumber 1)) ∧
  (StuffDocumentsChain.inner_calls
     (snd (StuffDocumentsChain._call Scenario.same_key_stuffer
             {[ "context" := VDocuments [Scenario.doc "A"; Scenario.doc "B"] ]}
             Scenario.start))
   = [ {[ "context" := VString Scenario.A_B ]} ] ∧
   StuffDocumentsChain.inputKey Scenario.same_key_stuffer = "context").
Proof. split_and!; try done; vm_compute; reflexivity. Qed.

(** ** Serialization of the stuffing chain *)

Section Serialization.
Import StuffDocumentsChain.
Context `{LLMChainLike LLMChain SerializedLLMChain R}.

Local Abbreviation World := (World SerializedLLMChain R).

(** [deserialize] once the inner configuration is resolved. *)
Lemma deserialize_resolved (data : SerializedStuffDocumentsChain SerializedLLMChain)
    (config : SerializedLLMChain) (w : World) :
  resolveConfigFromFile "llm_chain" data w = (inr config, w) →
  deserialize data w =
    match LLMChain_deserialize config (inner w) with
    | (inr chain, s) =>
        (inr (new (mkFields chain None None None)),
         {| files := files w; inner_calls := inner_calls w; inner := s |})
    | (inl e, s) =>
        (inl e, {| files := files w; inner_calls := inner_calls w; inner := s |})
    end.
Proof.
  intros Hresolve. unfold StuffDocumentsChain.deserialize.
  rewrite (bind_inr _ _ _ _ _ Hresolve).
  unfold mbind, M_bind, llmChain_deserialize.
  by destruct (LLMChain_deserialize config (inner w)) as [[e|chain] s].
Qed.

Lemma resolve_inline (self : StuffDocumentsChain LLMChain) (w : World) :
  resolveConfigFromFile "llm_chain" (serialize self) w
    = (inr (LLMChain_serialize (llmChain self)), w).
Proof. done. Qed.

Lemma resolve_path (type path : string) (config : SerializedLLMChain) (w : World) :
  files w !! path = Some config →
  resolveConfigFromFile "llm_chain" (mkSerialized type None (Some path)) w = (inr config, w).
Proof.
  intros Hfile. unfold resolveConfigFromFile, inline_at, path_at. simpl. by rewrite Hfile.
Qed.

(** Any state that [deserialize] returns a chain in was reached through
    the constructor with the chain alone. *)
Lemma deserialize_returns (data : SerializedStuffDocumentsChain SerializedLLMChain)
    (self : StuffDocumentsChain LLMChain) (w w' : World) :
  deserialize data w = (inr self, w') →
  ∃ chain, self = new (mkFields chain None None None).
Proof.
  unfold StuffDocumentsChain.deserialize. intros Hde.
  apply bind_inv in Hde as (config & w1 & _ & Hde).
  apply bind_inv in Hde as (chain & w2 & _ & Hde).
  injection Hde as <- _. by exists chain.
Qed.

(** C6. Take a chain whose inner chain the inner [deserialize] reads back
    from its serialized form, as a chain of the same serialized form. Then
    [deserialize] of the serialized chain returns a chain of the same type
    and the same serialized form, inner type and inner configuration
    included; and so does [deserialize] of the form that, instead of
    holding the inner configuration, names a location that holds it. *)
Theorem deserialize_serialize (self : StuffDocumentsChain LLMChain) (w : World)
    (chain : LLMChain) (s : R) :
  LLMChain_deserialize (LLMChain_serialize (llmChain self)) (inner w) = (inr chain, s) →
  LLMChain_serialize chain = LLMChain_serialize (llmChain self) →
  let w' := {| files := files w; inner_calls := inner_calls w; inner := s |} in
  (∃ self' : StuffDocumentsChain LLMChain,
     deserialize (serialize self) w = (inr self', w') ∧
     _chainType self' = _chainType self ∧
     serialize self' = serialize self) ∧
  (∀ path : string,
     files w !! path = Some (LLMChain_serialize (llmChain self)) →
     ∃ self' : StuffDocumentsChain LLMChain,
       deserialize (mkSerialized (_chainType self) None (Some path)) w = (inr self', w') ∧
       _chainType self' = _chainType self ∧
       serialize self' = serialize self).
Proof.
  intros Hinner Hsame w'. split; [|intros path Hfile];
    exists (new (mkFields chain None None None)).
  - rewrite (deserialize_resolved _ _ _ (resolve_inline self w)), Hinner.
    split_and!; [done..|]. unfold serialize. simpl. by rewrite Hsame.
  - rewrite (deserialize_resolved _ _ _ (resolve_path _ _ _ _ Hfile)), Hinner.
    split_and!; [done..|]. unfold serialize. simpl. by rewrite Hsame.
Qed.

(** C9. Whatever the serialized configuration, a chain that [deserialize]
    returns has the keys "input_documents", "output_text" and "context";
    the serialized form holds no key name, and [deserialize] of the
    serialized form of a chain returns, when the inner [deserialize] returns
    a chain, the constructor's chain around it with those three keys,
    whatever the keys of the chain that was serialized. *)
Theorem deserialize_default_keys :
  (∀ (data : SerializedStuffDocumentsChain SerializedLLMChain)
     (self : StuffDocumentsChain LLMChain) (w w' : World),
     deserialize data w = (inr self, w') →
     inputKey self = "input_documents" ∧
     outputKey self = "output_text" ∧
     documentVariableName self = "context") ∧
  (∀ (self : StuffDocumentsChain LLMChain) (input output variable : string),
     serialize {| llmChain := llmChain self; inputKey := input; outputKey := output;
                  documentVariableName := variable |} = serialize self) ∧
  (∀ (self : StuffDocumentsChain LLMChain) (w : World),
     fst (deserialize (serialize self) w) =
       sum_map id (λ chain, {| llmChain := chain; inputKey := "input_documents";
                               outputKey := "output_text";
                               documentVariableName := "context" |})
         (fst (LLMChain_deserialize (LLMChain_serialize (llmChain self)) (inner w)))).
Proof.
  split_and!.
  - intros data self w w' (chain & ->)%deserialize_returns. done.
  - done.
  - intros self w.
    rewrite (deserialize_resolved _ _ _ (resolve_inline self w)).
    by destruct (LLMChain_deserialize _ _) as [[e|chain] s].
Qed.

End Serialization.

(** The round trip of C6 on the default chain, inline and through
    "chain.json". *)
Lemma deserialize_serialize_witness :
  (∃ self' : StuffDocumentsChain.StuffDocumentsChain string,
     StuffDocumentsChain.deserialize (StuffDocumentsChain.serialize Scenario.stuffer)
       Scenario.start = (inr self', Scenario.start) ∧
     StuffDocumentsChain._chainType self' = "stuff_documents_chain" ∧
     StuffDocumentsChain.serialize self' = StuffDocumentsChain.serialize Scenario.stuffer) ∧
  (∃ self' : StuffDocumentsChain.StuffDocumentsChain string,
     StuffDocumentsChain.deserialize
       (StuffDocumentsChain.mkSerialized "stuff_documents_chain" None (Some "chain.json"))
       Scenario.start = (inr self', Scenario.start) ∧
     StuffDocumentsChain._chainType self' = "stuff_documents_chain" ∧
     StuffDocumentsChain.serialize self' = StuffDocumentsChain.serialize Scenario.stuffer).
Proof.
  destruct (deserialize_serialize Scenario.stuffer Scenario.start "Summarize: {context}" 0)
    as [Hinline Hpath]; [reflexivity..|].
  split; [exact Hinline|]. apply Hpath. reflexivity.
Defined.

(** C9 on a chain built with three other keys. *)
Lemma deserialize_default_keys_witness :
  ∃ self' : StuffDocumentsChain.StuffDocumentsChain string,
    StuffDocumentsChain.inputKey Scenario.renamed_stuffer = "docs" ∧
    StuffDocumentsChain.deserialize (StuffDocumentsChain.serialize Scenario.renamed_stuffer)
      Scenario.start = (inr self', Scenario.start) ∧
    StuffDocumentsChain.inputKey self' = "input_documents" ∧
    StuffDocumentsChain.outputKey self' = "output_text" ∧
    StuffDocumentsChain.documentVariableName self' = "context".
Proof.
  eexists. split; [reflexivity|]. split; [reflexivity|].
  apply (proj1 deserialize_default_keys
           (StuffDocumentsChain.serialize Scenario.renamed_stuffer) _
           Scenario.start Scenario.start).
  reflexivity.
Defined.

(** * Further properties of the engine *)

(** ** Retries *)

Section Retries.
Import Util OpenAI.
Context {R : Type}.
Variable createCompletion :
  CreateCompletionRequest → R → (exn + Api.CreateCompletionResponse) * R.

(** What [retries] further attempts can do after a first one: between 1
    and [S retries] sends of the same request, all of them used up when
    the outcome is an error; and the outcome, with the state of the
    provider, is what the transport gave at the last of them. *)
Lemma retry_attempts (request : CreateCompletionRequest) (retries : nat) (w : World R) :
  ∃ (k : nat) (s : R),
    1 ≤ k ≤ S retries ∧
    invocations (snd (retry (client_createCompletion createCompletion request) retries w))
      = invocations w ++ replicate k request ∧
    (∀ e, fst (retry (client_createCompletion createCompletion request) retries w) = inl e →
          k = S retries) ∧
    createCompletion request s
      = (fst (retry (client_createCompletion createCompletion request) retries w),
         remote (snd (retry (client_createCompletion createCompletion request) retries w))).
Proof.
  revert w. induction retries as [|retries IH]; intros w.
  - exists 1, (remote w). cbn [retry]. unfold client_createCompletion at 1 2 3 4.
    destruct (createCompletion request (remote w)) as [[e|data] s]; simpl;
      by split_and!; [lia..| | |].
  - cbn [retry]. unfold client_createCompletion at 1 3 5 7.
    destruct (createCompletion request (remote w)) as [[e|data] s] eqn:Hcall; simpl.
    + destruct (IH {| invocations := invocations w ++ [request]; remote := s |})
        as (k & s' & Hk & Hlog & Hall & Hlast).
      exists (S k), s'. split_and!; [lia..| | |done].
      * rewrite Hlog. simpl. by rewrite <-app_assoc.
      * intros e' He'. by rewrite (Hall e' He').
    + exists 1, (remote w). by split_and!; [lia..| | |].
Qed.

(** X1. [completionWithRetry] sends the transport the one request it was
    given, at least once and at most [maxRetries] times (once when
    [maxRetries] is below 1), and it gives up with an error only after the
    last of these attempts. *)
Theorem completionWithRetry_attempts (self : OpenAI) (request : CreateCompletionRequest)
    (w : World R) :
  ∃ k : nat,
    1 ≤ k ≤ Z.to_nat (Z.max 1 (maxRetries self)) ∧
    invocations (snd (completionWithRetry createCompletion self request w))
      = invocations w ++ replicate k request ∧
    (∀ e, fst (completionWithRetry createCompletion self request w) = inl e →
          k = Z.to_nat (Z.max 1 (maxRetries self))).
Proof.
  unfold completionWithRetry, backOff.
  destruct (retry_attempts request (Z.to_nat (Z.max 1 (maxRetries self)) - 1) w)
    as (k & s & Hk & Hlog & Hall & _).
  exists k. split_and!; [lia..|done|]. intros e He. rewrite (Hall e He). lia.
Qed.

(** X2. Whatever [completionWithRetry] returns or throws is what the
    transport returned or threw for that request at the last attempt, and
    the provider is left in the state of that attempt: an error is passed
    on as it is, not wrapped, and a response is not altered. *)
Theorem completionWithRetry_outcome (self : OpenAI) (request : CreateCompletionRequest)
    (w : World R) :
  ∃ s : R,
    createCompletion request s
      = (fst (completionWithRetry createCompletion self request w),
         remote (snd (completionWithRetry createCompletion self request w))).
Proof.
  unfold completionWithRetry, backOff.
  destruct (retry_attempts request (Z.to_nat (Z.max 1 (maxRetries self)) - 1) w)
    as (k & s & _ & _ & _ & Hlast).
  by exists s.
Qed.

(** The requests of a served run, batch after batch, each as often as it
    was attempted. *)
Lemma served_invocations (self : OpenAI) (params : CreateCompletionRequest)
    (batches : list (list string)) (datas : list Api.CreateCompletionResponse)
    (w w' : World R) :
  served createCompletion self params batches w datas w' →
  ∃ attempts : list nat,
    length attempts = length batches ∧
    Forall (λ k, 1 ≤ k ≤ Z.to_nat (Z.max 1 (maxRetries self))) attempts ∧
    invocations w' =
      invocations w ++
      concat (zip_with (λ k batch, replicate k (with_prompt batch params)) attempts batches).
Proof.
  induction 1 as [w|prompt rest data datas w w1 w2 Hcall _ (attempts & Hlen & Hall & Hlog)].
  - exists []. split_and!; [done|constructor|]. simpl. by rewrite app_nil_r.
  - destruct (retry_attempts (with_prompt prompt params)
                (Z.to_nat (Z.max 1 (maxRetries self)) - 1) w) as (k & s & Hk & Hfirst & _).
    unfold completionWithRetry, backOff in Hcall. rewrite Hcall in Hfirst. simpl in Hfirst.
    exists (k :: attempts). split_and!.
    + simpl. by rewrite Hlen.
    + constructor; [lia|done].
    + rewrite Hlog, Hfirst. simpl. by rewrite <-app_assoc.
Qed.

End Retries.

(** ** Requests and regrouping *)

Section ChunkCount.
Import Util.
Context {A : Type}.

(** The number of chunks is the length over the size, rounded up. *)
Lemma chunks_length (size : nat) (arr : list A) :
  0 < size → length (chunks size arr) = (length arr + size - 1) / size.
Proof.
  intros Hsize. set (m := length (chunks size arr)).
  assert (Hupper : ¬ m * size < length arr).
  { rewrite <-chunks_length_bound by done. unfold m. lia. }
  assert (Hlower : ∀ i, i < m → i * size < length arr).
  { intros i Hi. by apply chunks_length_bound. }
  assert (Hbelow : m * size < length arr + size).
  { destruct m as [|m']; [lia|]. specialize (Hlower m'). lia. }
  apply (Nat.div_unique _ _ _ (length arr + size - 1 - m * size)); lia.
Qed.

Lemma chunks_bounded (size : nat) (arr : list A) :
  0 < size → Forall (λ chunk, 1 ≤ length chunk ≤ size) (chunks size arr).
Proof.
  intros Hsize. apply Forall_lookup. intros i chunk Hchunk.
  pose proof (chunks_chunk_length _ _ _ _ Hsize Hchunk) as Hlen.
  apply chunks_lookup in Hchunk as [Hi _]; [|done]. lia.
Qed.

End ChunkCount.

Section Runs.
Import Util OpenAI.
Context {R : Type}.
Variable createCompletion :
  CreateCompletionRequest → R → (exn + Api.CreateCompletionResponse) * R.

(** X3. With no prompt, and no stop conflict, [_generate] sends nothing to
    the transport and returns no group and an empty usage. *)
Theorem generate_no_prompts (self : OpenAI) (stop' : option (list string)) (w : World R) :
  (0 < batchSize self)%Z → (0 < n self)%Z →
  ¬ stop_conflict self stop' →
  _generate createCompletion self [] stop' w =
    (inr {| generations := []; llmOutput := {| tokenUsage := no_usage |} |}, w).
Proof.
  intros Hsize Hn Hstop.
  apply (generate_served createCompletion self [] stop' [] [] w w Hstop).
  - by rewrite chunkArray_positive.
  - done.
  - constructor.
Qed.

(** X4. A call that returns has sent the transport the batches of the
    prompts in order and nothing else: each request is the parameters with
    the stop list of the call, and one batch as its prompt, repeated as
    often as it was attempted, between 1 and [maxRetries] times. *)
Theorem generate_requests (self : OpenAI) (prompts : list string)
    (stop' : option (list string)) (result : LLMResult) (w w' : World R) :
  _generate createCompletion self prompts stop' w = (inr result, w') →
  ∃ (batches : list (list string)) (attempts : list nat),
    chunkArray prompts (batchSize self) = inr batches ∧
    length attempts = length batches ∧
    Forall (λ k, 1 ≤ k ≤ Z.to_nat (Z.max 1 (maxRetries self))) attempts ∧
    invocations w' =
      invocations w ++
      concat (zip_with
                (λ k batch,
                   replicate k (with_prompt batch (with_stop stop' (invocationParams self))))
                attempts batches).
Proof.
  intros (_ & batches & datas & Hchunk & Hrun & _)%generate_returns.
  apply served_invocations in Hrun as (attempts & Hlen & Hall & Hlog).
  by exists batches, attempts.
Qed.

Lemma concat_map_map {A B} (f : A → B) (groups : list (list A)) :
  concat (map (map f) groups) = map f (concat groups).
Proof. induction groups as [|g groups IH]; simpl; [done|]. by rewrite IH, map_app. Qed.

(** X5. A call that returns has turned every choice of every response into
    one generation, in the order of the responses, whatever the responses
    hold; the groups it returns are never empty and never longer than
    [n]. *)
Theorem generate_keeps_every_choice (self : OpenAI) (prompts : list string)
    (stop' : option (list string)) (result : LLMResult) (w w' : World R) :
  _generate createCompletion self prompts stop' w = (inr result, w') →
  ∃ (batches : list (list string)) (datas : list Api.CreateCompletionResponse),
    served createCompletion self (with_stop stop' (invocationParams self)) batches w datas w' ∧
    concat (generations result) = map to_generation (concat (map Api.choices datas)) ∧
    Forall (λ group, (1 ≤ Z.of_nat (length group) ≤ n self)%Z) (generations result).
Proof.
  intros (_ & batches & datas & _ & Hrun & Hn & Hgens & _)%generate_returns.
  exists batches, datas. split_and!; [done| |].
  - rewrite Hgens, concat_map_map, concat_chunks; [done|lia].
  - rewrite Hgens. apply Forall_fmap.
    assert (Hpos : 0 < Z.to_nat (n self)) by lia.
    eapply Forall_impl; [exact (chunks_bounded _ _ Hpos)|].
    intros group Hgroup. simpl in *. rewrite length_map. lia.
Qed.

(** Against a transport that rejects nothing every batch is served at the
    first attempt. *)
Lemma served_reliable (self : OpenAI) (params : CreateCompletionRequest)
    (batches : list (list string)) (w : World R) :
  (∀ request s, ∃ data s', createCompletion request s = (inr data, s')) →
  ∃ datas w',
    served createCompletion self params batches w datas w' ∧
    invocations w' = invocations w ++ map (λ batch, with_prompt batch params) batches.
Proof.
  intros Hreliable. revert w. induction batches as [|batch batches IH]; intros w.
  - exists [], w. split; [constructor|]. simpl. by rewrite app_nil_r.
  - destruct (Hreliable (with_prompt batch params) (remote w)) as (data & s & Hcall).
    destruct (IH {| invocations := invocations w ++ [with_prompt batch params]; remote := s |})
      as (datas & w' & Hrun & Hlog).
    exists (data :: datas), w'. split.
    + econstructor; [|exact Hrun].
      unfold completionWithRetry, backOff.
      destruct (Z.to_nat _ - 1); cbn [retry]; unfold client_createCompletion;
        by rewrite Hcall.
    + rewrite Hlog. simpl. by rewrite <-app_assoc.
Qed.

(** X6. Against a transport that rejects no request, a call with positive
    batch size and [n] and no stop conflict returns a result, and it has
    sent one request per batch, in order: the number of prompts over the
    batch size, rounded up. *)
Theorem generate_reliable (self : OpenAI) (prompts : list string)
    (stop' : option (list string)) (w : World R) :
  (∀ request s, ∃ data s', createCompletion request s = (inr data, s')) →
  (0 < batchSize self)%Z → (0 < n self)%Z →
  ¬ stop_conflict self stop' →
  ∃ (result : LLMResult) (w' : World R),
    _generate createCompletion self prompts stop' w = (inr result, w') ∧
    invocations w' =
      invocations w ++
      map (λ batch, with_prompt batch (with_stop stop' (invocationParams self)))
          (chunks (Z.to_nat (batchSize self)) prompts) ∧
    (Z.of_nat (length (invocations w')) - Z.of_nat (length (invocations w)) =
       (Z.of_nat (length prompts) + batchSize self - 1) `div` batchSize self)%Z.
Proof.
  intros Hreliable Hsize Hn Hstop.
  destruct (served_reliable self (with_stop stop' (invocationParams self))
              (chunks (Z.to_nat (batchSize self)) prompts) w Hreliable)
    as (datas & w' & Hrun & Hlog).
  eexists _, w'. split_and!; [|exact Hlog|].
  - apply (generate_served createCompletion self prompts stop'
             (chunks (Z.to_nat (batchSize self)) prompts) datas w w' Hstop);
      [by apply chunkArray_positive|done..].
  - rewrite Hlog, length_app, length_map, chunks_length by lia.
    rewrite Nat2Z.inj_add, Nat2Z.inj_div, Nat2Z.inj_sub, Nat2Z.inj_add by lia.
    rewrite Z2Nat.id by lia. f_equal; lia.
Qed.

End Runs.

(** X3 on the default batch size. *)
Lemma generate_no_prompts_witness :
  OpenAI._generate (Scenario.echo 1 []) (Scenario.engine 20 1 None) [] None Scenario.fresh
    = (inr {| OpenAI.generations := [];
              OpenAI.llmOutput := {| OpenAI.tokenUsage := OpenAI.no_usage |} |},
       Scenario.fresh).
Proof.
  apply (generate_no_prompts (Scenario.echo 1 []) (Scenario.engine 20 1 None) None
           Scenario.fresh); [done..|].
  by intros [_ [? ?]].
Defined.

(** A run of three prompts in batches of two, the first attempt rejected. *)
Lemma flaky_run :
  ∃ w' : OpenAI.World nat,
    OpenAI._generate (Scenario.echo 2 [0]) (Scenario.engine 2 2 None) ["a"; "b"; "c"] None
      Scenario.fresh
    = (inr {| OpenAI.generations :=
                map (map OpenAI.to_generation)
                  [replicate 2 (Scenario.echo_choice "a");
                   replicate 2 (Scenario.echo_choice "b");
                   replicate 2 (Scenario.echo_choice "c")];
              OpenAI.llmOutput :=
                {| OpenAI.tokenUsage := OpenAI.mkTokenUsage (Some 6%Z) (Some 3%Z) (Some 9%Z) |} |},
       w').
Proof.
  eexists.
  eassert (Hrun : OpenAI._generate (Scenario.echo 2 [0]) (Scenario.engine 2 2 None)
                    ["a"; "b"; "c"] None Scenario.fresh = _).
  { eapply (generate_served _ _ _ _ [["a"; "b"]; ["c"]]); [by intros [_ [? ?]]|done..|].
    econstructor; [reflexivity|]. econstructor; [reflexivity|]. constructor. }
  exact Hrun.
Qed.

(** X4 on that run: the first batch is sent twice, the second once. *)
Lemma generate_requests_witness :
  ∃ (w' : OpenAI.World nat) (batches : list (list string)) (attempts : list nat),
    Util.chunkArray ["a"; "b"; "c"] 2 = inr batches ∧
    length attempts = length batches ∧
    Forall (λ k, 1 ≤ k ≤ 6) attempts ∧
    OpenAI.invocations w' =
      [] ++
      concat (zip_with
                (λ k batch,
                   replicate k
                     (OpenAI.with_prompt batch
                        (OpenAI.with_stop None
                           (OpenAI.invocationParams (Scenario.engine 2 2 None)))))
                attempts batches).
Proof.
  destruct flaky_run as [w' Hrun]. exists w'.
  exact (generate_requests _ _ _ _ _ _ _ Hrun).
Defined.

(** X5 on that run. *)
Lemma generate_keeps_every_choice_witness :
  ∃ (result : OpenAI.LLMResult) (w' : OpenAI.World nat)
    (batches : list (list string)) (datas : list OpenAI.Api.CreateCompletionResponse),
    OpenAI.served (Scenario.echo 2 [0]) (Scenario.engine 2 2 None)
      (OpenAI.with_stop None (OpenAI.invocationParams (Scenario.engine 2 2 None)))
      batches Scenario.fresh datas w' ∧
    concat (OpenAI.generations result)
      = map OpenAI.to_generation (concat (map OpenAI.Api.choices datas)) ∧
    Forall (λ group, (1 ≤ Z.of_nat (length group) ≤ 2)%Z) (OpenAI.generations result).
Proof.
  destruct flaky_run as [w' Hrun]. eexists _, w'.
  exact (generate_keeps_every_choice _ _ _ _ _ _ _ Hrun).
Defined.

(** X6 on 45 prompts and the default batch size: three requests. *)
Lemma generate_reliable_witness :
  ∃ (result : OpenAI.LLMResult) (w' : OpenAI.World nat),
    OpenAI._generate (Scenario.echo 1 []) (Scenario.engine 20 1 None) (replicate 45 "a") None
      Scenario.fresh = (inr result, w') ∧
    OpenAI.invocations w' =
      [] ++
      map (λ batch,
             OpenAI.with_prompt batch
               (OpenAI.with_stop None (OpenAI.invocationParams (Scenario.engine 20 1 None))))
          (Util.chunks 20 (replicate 45 "a")) ∧
    (Z.of_nat (length (OpenAI.invocations w')) - 0 = 3)%Z.
Proof.
  apply (generate_reliable (Scenario.echo 1 []) (Scenario.engine 20 1 None)
           (replicate 45 "a") None Scenario.fresh); [|done..|].
  - intros request s. by do 2 eexists.
  - by intros [_ [? ?]].
Defined.

(** ** Request parameters *)

Section Params.
Import OpenAI.

Lemma invocationParams_literal (self : OpenAI) :
  invocationParams self = modelKwargs self ∪ list_to_map (own_params self).
Proof. done. Qed.

Lemma own_params_NoDup (self : OpenAI) : NoDup (own_params self).*1.
Proof. apply (bool_decide_unpack _). by vm_compute. Qed.

Lemma invocationParams_lookup (self : OpenAI) (key : string) :
  invocationParams self !! key =
    match modelKwargs self !! key with
    | Some v => Some v
    | None => (list_to_map (own_params self) : gmap string value) !! key
    end.
Proof.
  rewrite invocationParams_literal, lookup_union.
  by destruct (modelKwargs self !! key), (list_to_map (own_params self) !! key).
Qed.

(** X7. Every request of a call holds its batch under "prompt", even when
    [modelKwargs] has a prompt of its own; under "stop" it holds the stop
    list of the call when there is one, and otherwise the "stop" of
    [modelKwargs] when there is one, and otherwise the stop list of the
    instance; every other key is as [invocationParams] gives it. *)
Theorem request_parameters (self : OpenAI) (stop' : option (list string))
    (batch : list string) :
  let request := with_prompt batch (with_stop stop' (invocationParams self)) in
  request !! "prompt" = Some (VStrings batch) ∧
  request !! "stop" =
    Some match stop' with
         | Some s => VStrings s
         | None => default (optional VStrings (stop self)) (modelKwargs self !! "stop")
         end ∧
  ∀ key : string, key ≠ "prompt" → key ≠ "stop" →
    request !! key = invocationParams self !! key.
Proof.
  intros request. unfold request, with_prompt, with_stop. split_and!.
  - by rewrite lookup_insert_eq.
  - rewrite lookup_insert_ne, lookup_insert_eq by done.
    destruct stop' as [s|]; [done|]. rewrite invocationParams_lookup.
    by destruct (modelKwargs self !! "stop").
  - intros key Hprompt Hstop. by rewrite !lookup_insert_ne.
Qed.

(** X8. [invocationParams] passes every entry of [modelKwargs] on as it is,
    also one that names a parameter of the class, which it then replaces;
    a parameter of the class that [modelKwargs] does not name is passed on
    from the instance; and there is no other key. *)
Theorem invocationParams_modelKwargs (self : OpenAI) :
  (∀ (key : string) (v : value),
     modelKwargs self !! key = Some v → invocationParams self !! key = Some v) ∧
  (∀ (key : string) (v : value),
     (key, v) ∈ own_params self → modelKwargs self !! key = None →
     invocationParams self !! key = Some v) ∧
  dom (invocationParams self) = dom (modelKwargs self) ∪ list_to_set (own_params self).*1.
Proof.
  split_and!.
  - intros key v Hkw. by rewrite invocationParams_lookup, Hkw.
  - intros key v Hown Hkw. rewrite invocationParams_lookup, Hkw.
    apply elem_of_list_to_map_1; [apply own_params_NoDup|done].
  - by rewrite invocationParams_literal, dom_union_L, dom_list_to_map_L.
Qed.

(** X9. [identifyingParams] holds everything [invocationParams] holds,
    unchanged, and the model name under "model_name", unless [modelKwargs]
    has a "model_name", which then takes its place. *)
Theorem identifyingParams_extends (self : OpenAI) :
  (∀ (key : string) (v : value),
     invocationParams self !! key = Some v → identifyingParams self !! key = Some v) ∧
  identifyingParams self !! "model_name"
    = Some (default (VString (modelName self)) (modelKwargs self !! "model_name")) ∧
  dom (identifyingParams self) = {[ "model_name" ]} ∪ dom (invocationParams self).
Proof.
  unfold identifyingParams. split_and!.
  - intros key v Hkey. by apply lookup_union_Some_l.
  - rewrite lookup_union, invocationParams_lookup.
    by destruct (modelKwargs self !! "model_name").
  - rewrite dom_union_L, dom_singleton_L. apply (comm_L (∪)).
Qed.

End Params.

(** X7 to X9 with [modelKwargs] naming "n", "stop" and "model_name". *)
Example params_overridden :
  let self := OpenAI.new (OpenAI.mkOpenAIFields None None None None None (Some 2%Z) None None None
                            (Some {[ "n" := VNumber 5; "stop" := VStrings ["#"];
                                     "model_name" := VString "mine" ]})
                            None None (Some ["."])) in
  OpenAI.invocationParams self !! "n" = Some (VNumber 5) ∧
  OpenAI.with_prompt ["a"] (OpenAI.with_stop None (OpenAI.invocationParams self)) !! "stop"
    = Some (VStrings ["#"]) ∧
  OpenAI.identifyingParams self !! "model_name" = Some (VString "mine") ∧
  OpenAI.identifyingParams self !! "model" = Some (VString "text-davinci-003").
Proof. by vm_compute. Qed.

(** * Further properties of the stuffing chain *)

Section Stuffing.
Import StuffDocumentsChain.
Context `{LLMChainLike LLMChain SerializedLLMChain R}.

Local Abbreviation World := (World SerializedLLMChain R).
Local Abbreviation stuffed docs := (join (newline +:+ newline) (map pageContent docs)).

Lemma append_assoc (s1 s2 s3 : string) : (s1 +:+ s2) +:+ s3 = s1 +:+ s2 +:+ s3.
Proof.
  induction s1 as [|c s1 IH]; [done|].
  change (String c ((s1 +:+ s2) +:+ s3) = String c (s1 +:+ s2 +:+ s3)). by f_equal.
Qed.

(** [join] puts the separator between the joined halves of a list. *)
Lemma join_app (sep : string) (l1 l2 : list string) :
  l1 ≠ [] → l2 ≠ [] → join sep (l1 ++ l2) = join sep l1 +:+ sep +:+ join sep l2.
Proof.
  unfold join. intros Hl1 Hl2. induction l1 as [|x l1 IH]; [done|].
  destruct l1 as [|y l1].
  - by destruct l2.
  - change (String.concat sep ((x :: y :: l1) ++ l2))
      with (x +:+ sep +:+ String.concat sep ((y :: l1) ++ l2)).
    rewrite IH by done.
    change (String.concat sep (x :: y :: l1)) with (x +:+ sep +:+ String.concat sep (y :: l1)).
    by rewrite !append_assoc.
Qed.

(** X10. [_call] reads the documents through [pageContent] alone: two
    lists of documents with the same texts in the same order, whatever else
    the documents carry, give the same call of the inner chain and the same
    outcome. *)
Theorem call_reads_pageContent_only (self : StuffDocumentsChain LLMChain)
    (values : ChainValues) (docs docs' : list Document) (w : World) :
  values !! inputKey self = Some (VDocuments docs) →
  map pageContent docs' = map pageContent docs →
  _call self (<[inputKey self := VDocuments docs']> values) w = _call self values w.
Proof.
  intros Hdocs Htexts.
  rewrite (call_unfold self values docs w Hdocs).
  rewrite (call_unfold self _ docs' w) by (by rewrite lookup_insert_eq).
  by rewrite Htexts, delete_insert_eq.
Qed.

(** X11. The text [_call] puts under the context key has a separator
    between two documents and nowhere else: it is empty for no document,
    the text of the document for one, and for a list made of two lists that
    are not empty, the texts of the two with one separator between them. *)
Theorem call_text (self : StuffDocumentsChain LLMChain) (values : ChainValues)
    (docs : list Document) (w : World) :
  values !! inputKey self = Some (VDocuments docs) →
  ∃ text : string,
    _call self values w =
      llmChain_call (llmChain self)
        (<[documentVariableName self := VString text]> (delete (inputKey self) values)) w ∧
    (docs = [] → text = "") ∧
    (∀ d, docs = [d] → text = pageContent d) ∧
    (∀ docs1 docs2, docs = docs1 ++ docs2 → docs1 ≠ [] → docs2 ≠ [] →
       text = stuffed docs1 +:+ newline +:+ newline +:+ stuffed docs2).
Proof.
  intros Hdocs. exists (stuffed docs). split_and!.
  - by apply call_unfold.
  - by intros ->.
  - by intros d ->.
  - intros docs1 docs2 -> Hdocs1 Hdocs2.
    rewrite map_app, join_app, append_assoc; [done|by destruct docs1|by destruct docs2].
Qed.

End Stuffing.

(** X10 on two documents that differ in their metadata. *)
Lemma call_reads_pageContent_only_witness :
  StuffDocumentsChain._call Scenario.stuffer
    (<[ "input_documents" :=
          VDocuments [mkDocument "A" {[ "source" := "a.txt" ]}; mkDocument "B" ∅] ]>
       {[ "input_documents" := VDocuments [Scenario.doc "A"; Scenario.doc "B"] ]})
    Scenario.start
  = StuffDocumentsChain._call Scenario.stuffer
      {[ "input_documents" := VDocuments [Scenario.doc "A"; Scenario.doc "B"] ]}
      Scenario.start.
Proof.
  apply (call_reads_pageContent_only Scenario.stuffer
           {[ "input_documents" := VDocuments [Scenario.doc "A"; Scenario.doc "B"] ]}
           [Scenario.doc "A"; Scenario.doc "B"]);
    reflexivity.
Defined.

(** X11 on the documents "A" and "B". *)
Lemma call_text_witness :
  ∃ text : string,
    StuffDocumentsChain._call Scenario.stuffer
      {[ "input_documents" := VDocuments [Scenario.doc "A"; Scenario.doc "B"] ]}
      Scenario.start
    = StuffDocumentsChain.llmChain_call (StuffDocumentsChain.llmChain Scenario.stuffer)
        (<[ "context" := VString text ]>
           (delete "input_documents"
              ({[ "input_documents" := VDocuments [Scenario.doc "A"; Scenario.doc "B"] ]}
                 : gmap string value)))
        Scenario.start ∧
    text = Scenario.A_B.
Proof.
  destruct (call_text Scenario.stuffer
              {[ "input_documents" := VDocuments [Scenario.doc "A"; Scenario.doc "B"] ]}
              [Scenario.doc "A"; Scenario.doc "B"] Scenario.start)
    as (text & Hcall & _ & _ & Happ); [reflexivity|].
  exists text. split; [exact Hcall|].
  by rewrite (Happ [Scenario.doc "A"] [Scenario.doc "B"]).
Defined.

(** ** Recovery and exhaustion *)

Section Recovery.
Import Util OpenAI.
Context {R : Type}.
Variable createCompletion :
  CreateCompletionRequest → R → (exn + Api.CreateCompletionResponse) * R.

Lemma retry_recovers (request : CreateCompletionRequest) (k retries : nat)
    (data : Api.CreateCompletionResponse) (w : World R) (s s' : R) :
  rejected createCompletion request k (remote w) s →
  createCompletion request s = (inr data, s') →
  k ≤ retries →
  retry (client_createCompletion createCompletion request) retries w
    = (inr data, {| invocations := invocations w ++ replicate (S k) request; remote := s' |}).
Proof.
  intros Hrejected. revert retries w Hrejected.
  induction k as [|k IH]; intros retries w Hrejected Hcall Hk.
  - inversion Hrejected; subst.
    destruct retries; cbn [retry]; unfold client_createCompletion; by rewrite Hcall.
  - inversion Hrejected as [|? ? e s1 ? Hfirst Hrest]; subst.
    destruct retries as [|retries]; [lia|].
    cbn [retry]. unfold client_createCompletion at 1. rewrite Hfirst.
    rewrite (IH retries {| invocations := invocations w ++ [request]; remote := s1 |})
      by (done || lia).
    simpl. by rewrite <-app_assoc.
Qed.

(** X12. When the provider rejects a request [k] times in a row, with [k]
    below [maxRetries], and accepts it next, [completionWithRetry] returns
    the response of that send, after [k + 1] sends of the request. *)
Theorem completionWithRetry_recovers (self : OpenAI) (request : CreateCompletionRequest)
    (k : nat) (data : Api.CreateCompletionResponse) (w : World R) (s s' : R) :
  rejected createCompletion request k (remote w) s →
  createCompletion request s = (inr data, s') →
  (Z.of_nat k < maxRetries self)%Z →
  completionWithRetry createCompletion self request w
    = (inr data, {| invocations := invocations w ++ replicate (S k) request; remote := s' |}).
Proof.
  intros Hrejected Hcall Hk. unfold completionWithRetry, backOff.
  apply (retry_recovers request k _ data w s s' Hrejected Hcall). lia.
Qed.

(** X13. Against a provider that rejects every request, a call with at
    least one prompt fails with an error of the provider after sending the
    first batch [maxRetries] times (once when [maxRetries] is below 1), and
    sends nothing else. *)
Theorem generate_unreachable (self : OpenAI) (prompts : list string)
    (stop' : option (list string)) (w : World R) :
  (∀ request s, ∃ e s', createCompletion request s = (inl e, s')) →
  prompts ≠ [] →
  (0 < batchSize self)%Z →
  ¬ stop_conflict self stop' →
  ∃ (e : exn) (w' : World R),
    _generate createCompletion self prompts stop' w = (inl e, w') ∧
    (∃ s s', createCompletion
               (with_prompt (take (Z.to_nat (batchSize self)) prompts)
                  (with_stop stop' (invocationParams self))) s = (inl e, s')) ∧
    invocations w' =
      invocations w ++
      replicate (Z.to_nat (Z.max 1 (maxRetries self)))
        (with_prompt (take (Z.to_nat (batchSize self)) prompts)
           (with_stop stop' (invocationParams self))).
Proof.
  intros Hdown Hprompts Hsize Hstop.
  set (request := with_prompt (take (Z.to_nat (batchSize self)) prompts)
                    (with_stop stop' (invocationParams self))).
  destruct (retry_attempts createCompletion request
              (Z.to_nat (Z.max 1 (maxRetries self)) - 1) w)
    as (k & s & Hk & Hlog & Hall & Hlast).
  destruct (retry (client_createCompletion createCompletion request)
              (Z.to_nat (Z.max 1 (maxRetries self)) - 1) w) as [[e|data] w'] eqn:Hretry;
    simpl in *.
  - exists e, w'. split_and!.
    + rewrite (generate_unfold createCompletion self prompts stop'
                 (chunks (Z.to_nat (batchSize self)) prompts) w)
        by (done || by apply chunkArray_positive).
      apply bind_inl. rewrite chunks_unfold by (done || lia).
      by apply (generate_loop_fails createCompletion self _ [] _ _ w [] w e w');
        [constructor|].
    + eauto.
    + rewrite Hlog, (Hall e eq_refl). f_equal. f_equal. lia.
  - destruct (Hdown request s) as (e & s' & Hcall). congruence.
Qed.

End Recovery.

(** X12 on a provider that rejects the first two sends. *)
Lemma completionWithRetry_recovers_witness :
  OpenAI.completionWithRetry (Scenario.echo 1 [0; 1]) (Scenario.engine 20 1 None)
    (OpenAI.with_prompt ["a"] ∅) Scenario.fresh
  = (inr (Scenario.echo_response 1 (OpenAI.with_prompt ["a"] ∅)),
     {| OpenAI.invocations := [] ++ replicate 3 (OpenAI.with_prompt ["a"] ∅);
        OpenAI.remote := 3 |}).
Proof.
  apply (completionWithRetry_recovers (Scenario.echo 1 [0; 1]) (Scenario.engine 20 1 None)
           (OpenAI.with_prompt ["a"] ∅) 2 _ Scenario.fresh 2 3).
  - econstructor; [reflexivity|]. econstructor; [reflexivity|]. constructor.
  - reflexivity.
  - done.
Defined.

(** X13 on three prompts in batches of two. *)
Lemma generate_unreachable_witness :
  ∃ (e : exn) (w' : OpenAI.World nat),
    OpenAI._generate Scenario.down (Scenario.engine 2 1 None) ["a"; "b"; "c"] None
      Scenario.fresh = (inl e, w') ∧
    (∃ s s' : nat,
       Scenario.down
         (OpenAI.with_prompt ["a"; "b"]
            (OpenAI.with_stop None (OpenAI.invocationParams (Scenario.engine 2 1 None)))) s
       = (inl e, s')) ∧
    OpenAI.invocations w' =
      [] ++
      replicate 6
        (OpenAI.with_prompt ["a"; "b"]
           (OpenAI.with_stop None (OpenAI.invocationParams (Scenario.engine 2 1 None)))).
Proof.
  apply (generate_unreachable Scenario.down (Scenario.engine 2 1 None) ["a"; "b"; "c"] None
           Scenario.fresh).
  - intros request s. by do 2 eexists.
  - done.
  - done.
  - by intros [_ [? ?]].
Defined.
